(** * JumpServer backend slice: ORM helpers, asset protocols, storage serializers

    A shallow embedding of
    - [apps/common/db/models.py]   (IncludesTextChoicesMeta, BitOperationChoice,
                                    UnionQuerySet, MultiTableChildQueryset),
    - [apps/assets/models/asset/common.py] (ProtocolsMixin, Asset.save),
    - [apps/terminal/serializers/storage.py] (validate_meta,
                                    es_host_format_validator),
    followed by the properties proved about them.

    Python values are embedded as follows.  A [str] is a [string]; its
    characters are read as the code points U+0000..U+00FF.  A [dict] is a
    [gmap]; an [OrderedDict] is an association list that keeps insertion
    order.  An [int] is a [Z].  A call that may raise returns a [result]. *)

From Stdlib Require Import ZArith Ascii String DecimalString.
From stdpp Require Import base option list gmap strings fin_maps.

Local Open Scope Z_scope.

(** ** Exceptions and the [result] monad *)

Inductive exception : Type :=
| AssertionError
| TypeError
| ValueError
| KeyError
| IndexError
| AttributeError
| ValidationError (msg : string)
| OtherError (tag : string).

Inductive result (A : Type) : Type :=
| Returns (a : A)
| Raises (e : exception).
Arguments Returns {A} a.
Arguments Raises {A} e.

#[global] Instance result_ret : MRet result := fun _ a => Returns a.
#[global] Instance result_bind : MBind result := fun _ _ f m =>
  match m with
  | Returns a => f a
  | Raises e => Raises e
  end.
#[global] Instance result_fmap : FMap result := fun _ _ f m =>
  match m with
  | Returns a => Returns (f a)
  | Raises e => Raises e
  end.

Definition raised {A} (m : result A) : bool :=
  match m with
  | Returns _ => false
  | Raises _ => true
  end.

(** ** Python builtins on [str] *)

Module Py.

Definition code (c : ascii) : N := N_of_ascii c.

(** [c in s] for a one-character [c]. *)
Fixpoint contains (c : ascii) (s : string) : bool :=
  match s with
  | EmptyString => false
  | String a s' => if Ascii.eqb a c then true else contains c s'
  end.

(** [s.count(c)] for a one-character [c]. *)
Fixpoint count (c : ascii) (s : string) : nat :=
  match s with
  | EmptyString => O
  | String a s' => if Ascii.eqb a c then S (count c s') else count c s'
  end.

(** [s.split(sep)] for a one-character [sep]: never empty, [''.split(sep)]
    is [['']]. *)
Fixpoint split (sep : ascii) (s : string) : list string :=
  match s with
  | EmptyString => [EmptyString]
  | String a s' =>
      if Ascii.eqb a sep then EmptyString :: split sep s'
      else match split sep s' with
           | h :: t => String a h :: t
           | [] => [String a EmptyString]
           end
  end.

(** [s.partition(sep)[0]] and [s.partition(sep)[2]]. *)
Fixpoint before (sep : ascii) (s : string) : string :=
  match s with
  | EmptyString => EmptyString
  | String a s' => if Ascii.eqb a sep then EmptyString else String a (before sep s')
  end.

Fixpoint after (sep : ascii) (s : string) : string :=
  match s with
  | EmptyString => EmptyString
  | String a s' => if Ascii.eqb a sep then s' else after sep s'
  end.

Definition truthy (s : string) : bool :=
  match s with
  | EmptyString => false
  | String _ _ => true
  end.

Fixpoint forall_chars (p : ascii -> bool) (s : string) : bool :=
  match s with
  | EmptyString => true
  | String a s' => p a && forall_chars p s'
  end.

(** The characters of U+0000..U+00FF for which [str.isdigit] holds: the
    decimal digits and the superscripts two, three and one. *)
Definition char_isdigit (c : ascii) : bool :=
  let n := code c in
  ((48 <=? n) && (n <=? 57) || (n =? 178) || (n =? 179) || (n =? 185))%N.

(** [s.isdigit()]: at least one character, and all of them digits. *)
Definition isdigit (s : string) : bool :=
  truthy s && forall_chars char_isdigit s.

(** Whitespace that [int] strips, on U+0000..U+00FF. *)
Definition char_isspace (c : ascii) : bool :=
  let n := code c in
  ((9 <=? n) && (n <=? 13) || (28 <=? n) && (n <=? 32)
   || (n =? 133) || (n =? 160))%N.

Fixpoint lstrip (p : ascii -> bool) (s : string) : string :=
  match s with
  | EmptyString => EmptyString
  | String a s' => if p a then lstrip p s' else s
  end.

Fixpoint rstrip (p : ascii -> bool) (s : string) : string :=
  match s with
  | EmptyString => EmptyString
  | String a s' =>
      match rstrip p s' with
      | EmptyString => if p a then EmptyString else String a EmptyString
      | r => String a r
      end
  end.

Definition decimal_value (c : ascii) : option Z :=
  let n := code c in
  if ((48 <=? n) && (n <=? 57))%N then Some (Z.of_N n - 48) else None.

(** Decimal digits with single underscores between them. *)
Fixpoint digits (s : string) (acc : Z) (after_digit : bool) : option Z :=
  match s with
  | EmptyString => if after_digit then Some acc else None
  | String c s' =>
      match decimal_value c with
      | Some d => digits s' (10 * acc + d) true
      | None =>
          if Ascii.eqb c "_" && after_digit then digits s' acc false else None
      end
  end.

(** [int(s)] for a [str] in base ten: surrounding whitespace, an optional
    sign, then digits.  Anything else is a [ValueError]. *)
Definition int (s : string) : result Z :=
  let body := rstrip char_isspace (lstrip char_isspace s) in
  let parsed :=
    match body with
    | String "-" rest => Z.opp <$> digits rest 0 false
    | String "+" rest => digits rest 0 false
    | _ => digits body 0 false
    end in
  match parsed with
  | Some z => Returns z
  | None => Raises ValueError
  end.

(** [s.startswith(p)]. *)
Fixpoint startswith (p s : string) : bool :=
  match p, s with
  | EmptyString, _ => true
  | String a p', String b s' => Ascii.eqb a b && startswith p' s'
  | String _ _, EmptyString => false
  end.

(** [x in l] for a list of strings. *)
Definition member (x : string) (l : list string) : bool :=
  bool_decide (x ∈ l).

(** [sub in s] for strings. *)
Fixpoint substring (sub s : string) : bool :=
  startswith sub s ||
  match s with
  | EmptyString => false
  | String _ s' => substring sub s'
  end.

(** [sep.join(l)] for a one-character [sep]. *)
Fixpoint join (sep : ascii) (l : list string) : string :=
  match l with
  | [] => EmptyString
  | [x] => x
  | x :: rest => x +:+ String sep (join sep rest)
  end.

End Py.

(** ** [collections.OrderedDict] with [str] keys *)

Module OrderedDict.

Definition t (V : Type) : Type := list (string * V).

Definition empty {V} : t V := [].

(** [d[k] = v]: an existing key keeps its position. *)
Fixpoint setitem {V} (k : string) (v : V) (d : t V) : t V :=
  match d with
  | [] => [(k, v)]
  | (k', v') :: d' =>
      if String.eqb k k' then (k, v) :: d' else (k', v') :: setitem k v d'
  end.

Fixpoint get {V} (k : string) (d : t V) : option V :=
  match d with
  | [] => None
  | (k', v') :: d' => if String.eqb k k' then Some v' else get k d'
  end.

(** [k in d]. *)
Definition has_key {V} (k : string) (d : t V) : bool :=
  match get k d with
  | Some _ => true
  | None => false
  end.

Definition items {V} (d : t V) : list (string * V) := d.

End OrderedDict.

(** ** apps/assets/models/asset/common.py: [ProtocolsMixin] *)

Module ProtocolsMixin.

Record t : Type := { protocols : string }.

Definition protocols_as_list (self : t) : list string :=
  if negb (Py.truthy (protocols self)) then []
  else Py.split " " (protocols self).

(** The body of the [for i in protocols] loop, over the remaining items. *)
Fixpoint protocols_loop (items : list string) (d : OrderedDict.t Z)
  : result (OrderedDict.t Z) :=
  match items with
  | [] => Returns d
  | i :: rest =>
      if negb (Py.contains "/" i) then protocols_loop rest d
      else
        match take 2 (Py.split "/" i) with
        | [name; port] =>
            if negb (Py.truthy name && Py.truthy port)
            then protocols_loop rest d
            else n ← Py.int port; protocols_loop rest (OrderedDict.setitem name n d)
        | _ => Raises ValueError
        end
  end.

Definition protocols_as_dict (self : t) : result (OrderedDict.t Z) :=
  protocols_loop (protocols_as_list self) OrderedDict.empty.

Definition protocols_as_json (self : t) : result (list (string * Z)) :=
  d ← protocols_as_dict self; mret (OrderedDict.items d).

Definition has_protocol (self : t) (name : string) : result bool :=
  d ← protocols_as_dict self; mret (OrderedDict.has_key name d).


End ProtocolsMixin.

(** ** [urllib.parse.urlparse]

    The validator below reads two fields of the parse result.  [UrlParser]
    is the interface it needs; [Urllib.urlparse] is a model of the library
    function for those two fields. *)

Record ParseResult : Type := { scheme : string; netloc : string }.

Class UrlParser : Type := urlparse : string -> result ParseResult.

Module Urllib.

Definition scheme_char (c : ascii) : bool :=
  let n := Py.code c in
  ((97 <=? n) && (n <=? 122) || (65 <=? n) && (n <=? 90)
   || (48 <=? n) && (n <=? 57)
   || (n =? 43) || (n =? 45) || (n =? 46))%N.

Definition ascii_alpha (c : ascii) : bool :=
  let n := Py.code c in
  ((97 <=? n) && (n <=? 122) || (65 <=? n) && (n <=? 90))%N.

Definition c0_control_or_space (c : ascii) : bool := (Py.code c <=? 32)%N.

Definition unsafe_byte (c : ascii) : bool :=
  let n := Py.code c in ((n =? 9) || (n =? 13) || (n =? 10))%N.

Definition lower_char (c : ascii) : ascii :=
  let n := Py.code c in
  if ((65 <=? n) && (n <=? 90))%N then ascii_of_N (n + 32) else c.

Fixpoint lower (s : string) : string :=
  match s with
  | EmptyString => EmptyString
  | String a s' => String (lower_char a) (lower s')
  end.

Fixpoint remove (p : ascii -> bool) (s : string) : string :=
  match s with
  | EmptyString => EmptyString
  | String a s' => if p a then remove p s' else String a (remove p s')
  end.

Definition netloc_delim (c : ascii) : bool :=
  let n := Py.code c in ((n =? 47) || (n =? 63) || (n =? 35))%N.

(** [_splitnetloc(url, 2)[0]] on the text that follows the two slashes. *)
Fixpoint splitnetloc (s : string) : string :=
  match s with
  | EmptyString => EmptyString
  | String a s' => if netloc_delim a then EmptyString else String a (splitnetloc s')
  end.

(** The [scheme] and [netloc] of [urlsplit(url)] as CPython 3.11 computes
    them, on which [urlparse] agrees with it: leading control characters
    and spaces are stripped, tabs and line breaks removed, a scheme is
    split off at the first colon when all that precedes it is scheme
    characters, and the network location runs from a leading double slash
    to the next slash, question mark or hash.  Unbalanced brackets raise
    [ValueError].  [check_bracketed_host] stands for the address check run
    on a host written in brackets.  On code points up to U+00FF the
    normalisation check of the network location never fails. *)
Definition urlparse (check_bracketed_host : string -> bool) (url : string)
  : result ParseResult :=
  let url := Py.lstrip c0_control_or_space url in
  let url := remove unsafe_byte url in
  let '(scheme, url) :=
    match url with
    | String c0 _ =>
        if Py.contains ":" url && Py.truthy (Py.before ":" url)
           && ascii_alpha c0 && Py.forall_chars scheme_char (Py.before ":" url)
        then (lower (Py.before ":" url), Py.after ":" url)
        else (EmptyString, url)
    | EmptyString => (EmptyString, url)
    end in
  match url with
  | String "/" (String "/" rest) =>
      let netloc := splitnetloc rest in
      let lb := Py.contains "[" netloc in
      let rb := Py.contains "]" netloc in
      if lb && negb rb || rb && negb lb then Raises ValueError
      else if lb && rb && negb (check_bracketed_host netloc) then Raises ValueError
      else Returns {| scheme := scheme; netloc := netloc |}
  | _ => Returns {| scheme := scheme; netloc := EmptyString |}
  end.

End Urllib.

(** ** apps/terminal/serializers/storage.py *)

Definition address_format_msg : string := "The address format is incorrect".
Definition host_invalid_msg : string := "Host invalid".
Definition port_invalid_msg : string := "Port invalid".

Definition es_host_format_validator `{UrlParser} (host : string) : result string :=
  h ← urlparse host;
  let default_error_msg := address_format_msg in
  if negb (Py.member (scheme h) ["http"; "https"])
  then Raises (ValidationError default_error_msg)
  else if negb (Py.contains ":" (netloc h))
  then Raises (ValidationError default_error_msg)
  else
    match Py.split ":" (netloc h) with
    | [_host; _port] =>
        if negb (Py.truthy _host) then Raises (ValidationError host_invalid_msg)
        else if negb (Py.isdigit _port) then Raises (ValidationError port_invalid_msg)
        else Returns host
    | _ => Raises ValueError
    end.

(** A stored storage object: the columns the serializers expose. *)
Record Storage (V : Type) : Type := {
  storage_name : string;
  storage_type : string;
  meta : gmap string V;
  storage_comment : string;
}.
Arguments storage_name {V} _.
Arguments storage_type {V} _.
Arguments meta {V} _.
Arguments storage_comment {V} _.

(** [dict.update]: the keys of [other] are written over [d]. *)
Definition dict_update {V} (d other : gmap string V) : gmap string V := other ∪ d.

Definition set_meta {V} (s : Storage V) (m : gmap string V) : Storage V :=
  {| storage_name := storage_name s; storage_type := storage_type s;
     meta := m; storage_comment := storage_comment s |}.

Module ReplayStorageSerializer.

Record t (V : Type) : Type := { instance : option (Storage V) }.
Arguments instance {V} _.

(** [_meta] is the instance's own dictionary, so [update] changes the
    instance too: the serializer after the call is returned with the
    value. *)
Definition validate_meta {V} (self : t V) (meta_in : gmap string V)
  : gmap string V * t V :=
  match instance self with
  | Some inst =>
      let _meta := dict_update (meta inst) meta_in in
      (_meta, {| instance := Some (set_meta inst _meta) |})
  | None =>
      let _meta := dict_update ∅ meta_in in
      (_meta, self)
  end.

End ReplayStorageSerializer.

Module CommandStorageSerializer.

Record t (V : Type) : Type := { instance : option (Storage V) }.
Arguments instance {V} _.

Definition validate_meta {V} (self : t V) (meta_in : gmap string V)
  : gmap string V * t V :=
  match instance self with
  | Some inst =>
      let _meta := dict_update (meta inst) meta_in in
      (_meta, {| instance := Some (set_meta inst _meta) |})
  | None =>
      let _meta := dict_update ∅ meta_in in
      (_meta, self)
  end.

End CommandStorageSerializer.

(** ** apps/common/db/models.py: [BitOperationChoice] *)

Module BitOperationChoice.

(** A subclass supplies the three class attributes. *)
Record t : Type := {
  NAME_MAP : gmap Z string;
  DB_CHOICES : list (Z * string);
  NAME_MAP_REVERSE : gmap string Z;
}.

Definition NONE : Z := 0.

(** The arguments the two conversions are called with. *)
Inductive value : Type :=
| VList (l : list string)
| VInt (z : Z)
| VStr (s : string)
| VNone.

(** [int(value)] for a value that is not a list. *)
Definition int (v : value) : result Z :=
  match v with
  | VInt z => Returns z
  | VStr s => Py.int s
  | VNone | VList _ => Raises TypeError
  end.

(** [[cls.NAME_MAP[i] for i, j in cls.DB_CHOICES if value & i == i]] *)
Fixpoint selected_names (cls : t) (v : Z) (choices : list (Z * string))
  : result (list string) :=
  match choices with
  | [] => Returns []
  | (i, j) :: rest =>
      if Z.land v i =? i then
        match NAME_MAP cls !! i with
        | Some name => names ← selected_names cls v rest; mret (name :: names)
        | None => Raises KeyError
        end
      else selected_names cls v rest
  end.

Definition value_to_choices (cls : t) (v : value) : result (list string) :=
  match v with
  | VList l => Returns l
  | _ => n ← int v; selected_names cls n (DB_CHOICES cls)
  end.

(** [[cls.NAME_MAP_REVERSE[v] for v in value if v in cls.NAME_MAP_REVERSE.keys()]] *)
Fixpoint db_values (cls : t) (names : list string) : list Z :=
  match names with
  | [] => []
  | v :: rest =>
      match NAME_MAP_REVERSE cls !! v with
      | Some i => i :: db_values cls rest
      | None => db_values cls rest
      end
  end.

Definition to_choices (x y : Z) : Z := Z.lor x y.

(** [functools.reduce(f, l)] on a non-empty list. *)
Definition reduce {A} (f : A -> A -> A) (x : A) (l : list A) : A :=
  fold_left f l x.

Definition choices_to_value (cls : t) (v : value) : Z :=
  match v with
  | VList l =>
      match db_values cls l with
      | [] => NONE
      | x :: db_value => reduce to_choices x db_value
      end
  | _ => NONE
  end.

Definition choices (cls : t) : result (list (string * string)) :=
  mapM (fun '(i, j) =>
          match NAME_MAP cls !! i with
          | Some name => Returns (name, j)
          | None => Raises KeyError
          end) (DB_CHOICES cls).

(** [dict(pairs)]: a later pair replaces an earlier one with the same key. *)
Definition dict_of_pairs (pairs : list (string * string)) : gmap string string :=
  fold_left (fun d kv => <[kv.1 := kv.2]> d) pairs ∅.

(** [[str(dict(cls.choices())[i]) for i in choices]]: the dictionary is
    built anew for each element. *)
Fixpoint display_labels (cls : t) (names : list string) : result (list string) :=
  match names with
  | [] => Returns []
  | i :: rest =>
      pairs ← choices cls;
      match dict_of_pairs pairs !! i with
      | None => Raises KeyError
      | Some label => labels ← display_labels cls rest; mret (label :: labels)
      end
  end.

Definition value_to_choices_display (cls : t) (v : value) : result (list string) :=
  names ← value_to_choices cls v; display_labels cls names.

End BitOperationChoice.

(** ** apps/common/db/models.py: [UnionQuerySet] *)

(** What the helper asks of the querysets it wraps.  [call_method qs attr a]
    is [getattr(qs, attr)( *args, **kwargs)], [qs_union x y] is [x.union(y)],
    and [ismethod qs item] is [inspect.ismethod(getattr(qs, item, None))]. *)
Class QuerySetAPI (QS Args : Type) : Type := {
  call_method : QS -> string -> Args -> result QS;
  qs_union : QS -> QS -> result QS;
  ismethod : QS -> string -> bool;
}.

Module UnionQuerySet.

Definition after_union : list string := ["order_by"].

Definition not_return_qs : list string :=
  [ "query"; "get"; "create"; "get_or_create";
    "update_or_create"; "bulk_create"; "count";
    "latest"; "earliest"; "first"; "last"; "aggregate";
    "exists"; "update"; "delete"; "as_manager"; "explain" ].

(** The keys of [UnionQuerySet.__dict__]: the names the class body binds,
    private ones under their mangled names.  (Those that start with two
    underscores pass the first test of [__getattribute__] either way.) *)
Definition class_dict : list string :=
  [ "__module__"; "__qualname__"; "after_union"; "not_return_qs"; "__init__";
    "_UnionQuerySet__execute"; "_UnionQuerySet__before_union_perform";
    "_UnionQuerySet__after_union_perform"; "_UnionQuerySet__clone";
    "__getattribute__"; "__getitem__"; "__iter__"; "__str__"; "__repr__";
    "test_it"; "__doc__" ].

Definition instance_attributes : list string :=
  [ "queryset_list"; "after_union_items"; "before_union_items" ].

(** The two item lists are Python lists, shared by reference between an
    object and its clones: they live in a store and objects hold their
    addresses. *)
Abbreviation loc := positive (only parsing).
Abbreviation store Args := (gmap loc (list (string * Args))) (only parsing).

Record t (QS : Type) : Type := {
  queryset_list : list QS;
  after_union_items : loc;
  before_union_items : loc;
}.
Arguments queryset_list {QS} _.
Arguments after_union_items {QS} _.
Arguments before_union_items {QS} _.

Definition alloc {Args} (h : store Args) : store Args * loc :=
  let l := fresh (dom h) in (<[l := []]> h, l).

Definition items_at {Args} (h : store Args) (l : loc) : list (string * Args) :=
  default [] (h !! l).

Definition append {Args} (h : store Args) (l : loc) (x : string * Args)
  : store Args :=
  <[l := items_at h l ++ [x]]> h.

(** The first test of [__getattribute__]: the names looked up on the
    object itself. *)
Definition own_attribute (item : string) : bool :=
  Py.startswith "__" item || Py.member item class_dict
  || Py.member item instance_attributes.

Definition __init__ {QS Args} (h : store Args) (queryset_list : list QS)
  : store Args * t QS :=
  let '(h, a) := alloc h in
  let '(h, b) := alloc h in
  (h, {| queryset_list := queryset_list;
         after_union_items := a; before_union_items := b |}).

Section Methods.
Context {QS Args : Type} `{QuerySetAPI QS Args}.

(** [for attr, args, kwargs in items: qs = getattr(qs, attr)( *args, **kwargs)] *)
Fixpoint perform_items (items : list (string * Args)) (qs : QS) : result QS :=
  match items with
  | [] => Returns qs
  | (attr, args) :: rest => qs ← call_method qs attr args; perform_items rest qs
  end.

(** The first loop of [__execute]; [queryset_list] is the local list
    being appended to. *)
Fixpoint collect (members : list QS) (before : list (string * Args))
    (queryset_list : list QS) : result (list QS) :=
  match members with
  | [] => Returns queryset_list
  | qs :: rest =>
      qs ← perform_items before qs;
      collect rest before (queryset_list ++ [qs])
  end.

Fixpoint reduce_from (acc : QS) (l : list QS) : result QS :=
  match l with
  | [] => Returns acc
  | y :: rest => acc ← qs_union acc y; reduce_from acc rest
  end.

(** [reduce(lambda x, y: x.union(y), l)], a [TypeError] on an empty list. *)
Definition reduce (l : list QS) : result QS :=
  match l with
  | [] => Raises TypeError
  | x :: rest => reduce_from x rest
  end.

Definition __execute (h : store Args) (self : t QS) : result QS :=
  queryset_list ← collect (queryset_list self)
                    (items_at h (before_union_items self)) [];
  union_qs ← reduce queryset_list;
  perform_items (items_at h (after_union_items self)) union_qs.

Definition __clone (h : store Args) (self : t QS) (queryset_list : list QS)
  : store Args * t QS :=
  let '(h, uqs) := __init__ h queryset_list in
  (h, {| queryset_list := UnionQuerySet.queryset_list uqs;
         after_union_items := after_union_items self;
         before_union_items := before_union_items self |}).

Definition __before_union_perform (h : store Args) (self : t QS)
    (item : string) (args : Args) : store Args * t QS :=
  let h := append h (before_union_items self) (item, args) in
  __clone h self (queryset_list self).

Definition __after_union_perform (h : store Args) (self : t QS)
    (item : string) (args : Args) : store Args * t QS :=
  let h := append h (after_union_items self) (item, args) in
  __clone h self (queryset_list self).

Inductive phase : Type := BeforeUnion | AfterUnion.

(** What an attribute access yields. *)
Inductive attribute : Type :=
| OwnAttribute (item : string)
    (** [object.__getattribute__(self, item)] *)
| UnionAttribute (union_qs : QS) (item : string)
    (** [getattr(self.__execute(), item)] *)
| Partial (p : phase) (item : string).
    (** [partial(self.__before_union_perform, item)] or the after one *)

Definition __getattribute__ (h : store Args) (self : t QS) (item : string)
  : result attribute :=
  if own_attribute item
  then Returns (OwnAttribute item)
  else if Py.member item not_return_qs
  then union_qs ← __execute h self; mret (UnionAttribute union_qs item)
  else
    match queryset_list self with
    | [] => Raises IndexError
    | origin_item :: _ =>
        if negb (ismethod origin_item item)
        then union_qs ← __execute h self; mret (UnionAttribute union_qs item)
        else if Py.member item after_union
        then Returns (Partial AfterUnion item)
        else Returns (Partial BeforeUnion item)
    end.

(** Calling the [partial] an attribute access returned. *)
Definition call_partial (h : store Args) (self : t QS) (p : phase)
    (item : string) (args : Args) : store Args * t QS :=
  match p with
  | AfterUnion => __after_union_perform h self item args
  | BeforeUnion => __before_union_perform h self item args
  end.

(** [self[item]], [iter(self)], [str(self)] and [repr(self)] all run
    the union and hand the operation to the result. *)
Definition __getitem__ (h : store Args) (self : t QS) : result QS :=
  __execute h self.
Definition __iter__ (h : store Args) (self : t QS) : result QS :=
  __execute h self.
Definition __str__ (h : store Args) (self : t QS) : result QS :=
  __execute h self.
Definition __repr__ (h : store Args) (self : t QS) : result QS :=
  __execute h self.

End Methods.

End UnionQuerySet.

(** ** apps/common/db/models.py: [MultiTableChildQueryset] *)

Module MultiTableChildQueryset.

(** A model instance is the dictionary of its attributes. *)
Abbreviation instance V := (gmap string V) (only parsing).

(** What [bulk_create] reads of [self.model._meta]: the attribute name of
    the primary key (the link to the parent row), the names of
    [parent_model._meta.fields], and the child's [local_fields]. *)
Record Options : Type := {
  pk_attname : string;
  parent_fields : list string;
  local_fields : list string;
}.

Record t : Type := {
  model_meta : Options;
  db : string;
  _for_write : bool;
}.

(** The database work the method asks of the framework, in order. *)
Inductive event (V : Type) : Type :=
| ParentBulkCreate (parent_objs : list (instance V)) (batch_size : option Z)
| AtomicEnter (using_db : string)
| BatchedInsert (objs : list (instance V)) (fields : list string)
    (batch_size : option Z)
| AtomicExit.
Arguments ParentBulkCreate {V} _ _.
Arguments AtomicEnter {V} _.
Arguments BatchedInsert {V} _ _ _.
Arguments AtomicExit {V}.

Section Methods.
Context {V : Type}.

Definition hasattr (obj : instance V) (name : string) : bool :=
  bool_decide (is_Some (obj !! name)).

Definition getattr (obj : instance V) (name : string) : result V :=
  match obj !! name with
  | Some v => Returns v
  | None => Raises AttributeError
  end.

Definition setattr (obj : instance V) (name : string) (v : V) : instance V :=
  <[name := v]> obj.

(** The inner loop: [parent_values[field.name] = getattr(obj, field.name)]
    for the parent fields the object has. *)
Fixpoint fill_parent_values (obj : instance V) (fields : list string)
    (parent_values : gmap string V) : result (gmap string V) :=
  match fields with
  | [] => Returns parent_values
  | f :: rest =>
      if hasattr obj f then
        v ← getattr obj f;
        fill_parent_values obj rest (<[f := v]> parent_values)
      else fill_parent_values obj rest parent_values
  end.

(** The loop over [objs]: returns the parents built and the objects as
    the loop leaves them. *)
Fixpoint build_parents (opts : Options) (objs : list (instance V))
    (parent_objs : list (instance V))
  : result (list (instance V) * list (instance V)) :=
  match objs with
  | [] => Returns (parent_objs, [])
  | obj :: rest =>
      parent_values ← fill_parent_values obj (parent_fields opts) ∅;
      let parent_objs := parent_objs ++ [parent_values] in
      id ← getattr obj "id";
      let obj := setattr obj (pk_attname opts) id in
      '(parent_objs, rest) ← build_parents opts rest parent_objs;
      mret (parent_objs, obj :: rest)
  end.

Definition batch_size_ok (batch_size : option Z) : bool :=
  match batch_size with
  | None => true
  | Some n => 0 <? n
  end.

(** The value or exception, the queryset afterwards, and the database
    work requested. *)
Definition bulk_create (self : t) (objs : list (instance V))
    (batch_size : option Z)
  : result (list (instance V)) * t * list (event V) :=
  if negb (batch_size_ok batch_size) then (Raises AssertionError, self, [])
  else
    match objs with
    | [] => (Returns objs, self, [])
    | _ :: _ =>
        let self := {| model_meta := model_meta self; db := db self;
                       _for_write := true |} in
        match build_parents (model_meta self) objs [] with
        | Raises e => (Raises e, self, [])
        | Returns (parent_objs, objs) =>
            (Returns objs, self,
             [ ParentBulkCreate parent_objs batch_size;
               AtomicEnter (db self);
               BatchedInsert objs (local_fields (model_meta self)) batch_size;
               AtomicExit ])
        end
    end.

End Methods.

End MultiTableChildQueryset.

(** ** apps/common/db/models.py: [IncludesTextChoicesMeta] *)

Module IncludesTextChoicesMeta.

(** The value of a choices member: a string for [TextChoices], an integer
    for [IntegerChoices]. *)
Inductive pyvalue : Type := PStr (s : string) | PInt (z : Z).

#[global] Instance pyvalue_eq_dec : EqDecision pyvalue.
Proof. solve_decision. Defined.

#[global] Instance pyvalue_countable : Countable pyvalue :=
  inj_countable'
    (fun v => match v with PStr s => inl s | PInt z => inr z end)
    (fun x => match x with inl s => PStr s | inr z => PInt z end)
    (fun v => match v with PStr _ | PInt _ => eq_refl end).

(** [str(member)]: a choices member prints as its value. *)
Definition str (v : pyvalue) : string :=
  match v with
  | PStr s => s
  | PInt z => DecimalString.NilZero.string_of_int (Z.to_int z)
  end.

(** What [__new__] reads of an included choices class. *)
Record Choices : Type := {
  _member_names_ : list string;
  _member_map_ : gmap string pyvalue;
  _value2label_map_ : gmap pyvalue string;
}.

(** A value stored in the class namespace: an object of the class body,
    or the pair [value, label] built for an included member. *)
Inductive entry (O : Type) : Type :=
| Body (o : O)
| Pair (value label : string).
Arguments Body {O} o.
Arguments Pair {O} value label.

(** [enum._EnumDict]: the namespace with the member names it tracks. *)
Record EnumDict (O : Type) : Type := {
  entries : OrderedDict.t (entry O);
  _member_names : list string;
  _ignore : list string;
}.
Arguments entries {O} _.
Arguments _member_names {O} _.
Arguments _ignore {O} _.

Fixpoint last_char (s : string) : option ascii :=
  match s with
  | EmptyString => None
  | String a EmptyString => Some a
  | String _ s' => last_char s'
  end.

Fixpoint drop_last (s : string) : string :=
  match s with
  | EmptyString => EmptyString
  | String _ EmptyString => EmptyString
  | String a s' => String a (drop_last s')
  end.

Definition is_underscore (c : option ascii) : bool :=
  match c with
  | Some c => Ascii.eqb c "_"
  | None => false
  end.

Definition first_char (s : string) : option ascii :=
  match s with
  | EmptyString => None
  | String a _ => Some a
  end.

Definition tail (s : string) : string :=
  match s with
  | EmptyString => EmptyString
  | String _ s' => s'
  end.

(** [enum._is_sunder]: [_name_], with no second underscore at either end. *)
Definition _is_sunder (name : string) : bool :=
  (2 <? String.length name)%nat
  && is_underscore (first_char name) && is_underscore (last_char name)
  && negb (is_underscore (first_char (tail name)))
  && negb (is_underscore (last_char (drop_last name))).

(** [enum._is_dunder]: [__name__], with no third underscore at either end. *)
Definition _is_dunder (name : string) : bool :=
  (4 <? String.length name)%nat
  && is_underscore (first_char name) && is_underscore (first_char (tail name))
  && is_underscore (last_char name) && is_underscore (last_char (drop_last name))
  && negb (is_underscore (first_char (tail (tail name))))
  && negb (is_underscore (last_char (drop_last (drop_last name)))).

Definition sunder_names : list string :=
  [ "_order_"; "_create_pseudo_member_"; "_generate_next_value_";
    "_missing_"; "_ignore_" ].

Section Methods.
Context {O : Type}.
(** [enum._is_descriptor] on an object of the class body, and the names
    an object lists when it is bound to [_ignore_]. *)
Variable is_descriptor : O -> bool.
Variable ignore_names : O -> list string.

Definition entry_is_descriptor (v : entry O) : bool :=
  match v with
  | Body o => is_descriptor o
  | Pair _ _ => false
  end.

Definition entry_ignore_names (v : entry O) : list string :=
  match v with
  | Body o => ignore_names o
  | Pair value label => [value; label]
  end.

Definition dict_setitem (d : EnumDict O) (key : string) (v : entry O)
  : EnumDict O :=
  {| entries := OrderedDict.setitem key v (entries d);
     _member_names := _member_names d; _ignore := _ignore d |}.

(** [_EnumDict.__setitem__], as in the [enum] module of CPython 3.8:
    reserved [_sunder_] names are refused, [__dunder__] names and
    descriptors are stored as they are, a member name cannot be bound
    twice, and any other value makes its key a member.  The expansion of
    [auto()] values is left out. *)
Definition enum_setitem (d : EnumDict O) (key : string) (v : entry O)
  : result (EnumDict O) :=
  if _is_sunder key then
    if negb (Py.member key sunder_names) then Raises ValueError
    else if String.eqb key "_ignore_" then
      let names := entry_ignore_names v in
      if existsb (fun n => Py.member n (_member_names d)) names
      then Raises ValueError
      else Returns (dict_setitem {| entries := entries d;
                                    _member_names := _member_names d;
                                    _ignore := names |} key v)
    else Returns (dict_setitem d key v)
  else if _is_dunder key then
    Returns (dict_setitem d (if String.eqb key "__order__" then "_order_" else key) v)
  else if Py.member key (_member_names d) then Raises TypeError
  else if Py.member key (_ignore d) then Returns (dict_setitem d key v)
  else if negb (entry_is_descriptor v) then
    if OrderedDict.has_key key (entries d) then Raises TypeError
    else Returns (dict_setitem {| entries := entries d;
                                  _member_names := _member_names d ++ [key];
                                  _ignore := _ignore d |} key v)
  else Returns (dict_setitem d key v).

(** [for k, v in classdict.items(): attrs[k] = v] *)
Fixpoint copy_body (items : list (string * O)) (attrs : EnumDict O)
  : result (EnumDict O) :=
  match items with
  | [] => Returns attrs
  | (k, v) :: rest => attrs ← enum_setitem attrs k (Body v); copy_body rest attrs
  end.

(** [for name in _member_names_: ...] for one included class. *)
Fixpoint include_members (cls : Choices) (names : list string)
    (attrs : EnumDict O) : result (EnumDict O) :=
  match names with
  | [] => Returns attrs
  | name :: rest =>
      match _member_map_ cls !! name with
      | None => Raises KeyError
      | Some member =>
          let value := str member in
          match _value2label_map_ cls !! PStr value with
          | None => Raises KeyError
          | Some label =>
              attrs ← enum_setitem attrs name (Pair value label);
              include_members cls rest attrs
          end
      end
  end.

(** [for cls in includes: ...] *)
Fixpoint include_classes (includes : list Choices) (attrs : EnumDict O)
  : result (EnumDict O) :=
  match includes with
  | [] => Returns attrs
  | cls :: rest =>
      attrs ← include_members cls (_member_names_ cls) attrs;
      include_classes rest attrs
  end.

(** The class statement's namespace: the [includes] entry, if any, and
    the other items in order. *)
Record classdict : Type := {
  includes : option (list Choices);
  body : list (string * O);
}.

(** The class [type(classname, bases, attrs)] is asked for. *)
Record class : Type := {
  class_name : string;
  class_bases : list string;
  class_attrs : EnumDict O;
}.

Definition __new__ (classname : string) (bases : list string)
    (cd : classdict) : result class :=
  match includes cd with
  | None | Some [] => Raises AssertionError
  | Some includes =>
      let attrs := {| entries := OrderedDict.empty;
                      _member_names := []; _ignore := [] |} in
      attrs ← copy_body (body cd) attrs;
      attrs ← include_classes includes attrs;
      let bases := ["TextChoices"] in
      mret {| class_name := classname; class_bases := bases;
              class_attrs := attrs |}
  end.

End Methods.

End IncludesTextChoicesMeta.

(** ** apps/assets/models/asset/common.py: [Asset.save] *)

Module Asset.

Record Platform : Type := {
  platform_name : string;
  platform_type : string;
  platform_category : string;
}.

(** The columns of an asset; [platform] is the related row. *)
Record t : Type := {
  id : string;
  hostname : string;
  ip : string;
  category : string;
  type : string;
  protocol : string;
  port : Z;
  protocols : string;
  platform : Platform;
  domain : option string;
  is_active : bool;
  admin_user : option string;
  public_ip : option string;
  number : option string;
  created_by : option string;
  date_created : option Z;
  comment : string;
  org_id : string;
}.

Definition set_type (self : t) (v : string) : t :=
  {| id := id self; hostname := hostname self; ip := ip self;
     category := category self; type := v; protocol := protocol self;
     port := port self; protocols := protocols self;
     platform := platform self; domain := domain self;
     is_active := is_active self; admin_user := admin_user self;
     public_ip := public_ip self; number := number self;
     created_by := created_by self; date_created := date_created self;
     comment := comment self; org_id := org_id self |}.

Definition set_category (self : t) (v : string) : t :=
  {| id := id self; hostname := hostname self; ip := ip self;
     category := v; type := type self; protocol := protocol self;
     port := port self; protocols := protocols self;
     platform := platform self; domain := domain self;
     is_active := is_active self; admin_user := admin_user self;
     public_ip := public_ip self; number := number self;
     created_by := created_by self; date_created := date_created self;
     comment := comment self; org_id := org_id self |}.

(** [save]: [super_save] is the inherited [save] of the model base
    class, which receives the instance as [save] leaves it. *)
Definition save {Args R : Type} (super_save : t -> Args -> R)
    (self : t) (args : Args) : R :=
  let self := set_type self (platform_type (platform self)) in
  let self := set_category self (platform_category (platform self)) in
  super_save self args.

(** [__str__]: [{0.hostname}({0.ip})]. *)
Definition __str__ (self : t) : string :=
  hostname self +:+ "(" +:+ ip self +:+ ")".

Definition get_target_ip (self : t) : string := ip self.

Definition is_valid (self : t) : bool * string :=
  let warning := EmptyString in
  let warning := if negb (is_active self) then warning +:+ " inactive" else warning in
  if Py.truthy warning then (false, warning) else (true, warning).

Definition platform_base (self : t) : string := platform_type (platform self).

(** The asset as the [ProtocolsMixin] it inherits from. *)
Definition as_protocols_mixin (self : t) : ProtocolsMixin.t :=
  {| ProtocolsMixin.protocols := protocols self |}.

Definition has_protocol (self : t) (name : string) : result bool :=
  ProtocolsMixin.has_protocol (as_protocols_mixin self) name.

(** [self.has_protocol('ssh') and self.platform_base not in ("Other",)] *)
Definition is_support_ansible (self : t) : result bool :=
  ssh ← has_protocol self "ssh";
  if ssh : bool then mret (negb (Py.member (platform_base self) ["Other"]))
  else mret false.

End Asset.

(** The parser the examples are evaluated with: the library model, with
    every bracketed host taken as well formed. *)
Definition reference_parser : UrlParser := Urllib.urlparse (fun _ => true).

(** ** apps/assets/models/asset/common.py: [AssetQuerySet] *)

Module AssetQuerySet.

(** A queryset is the list of rows it selects; [filter] keeps the rows that
    match.  The lookup [protocols__contains] is containment of the text. *)
Definition t : Type := list Asset.t.

Definition active (self : t) : t :=
  List.filter (fun a => Asset.is_active a) self.

Definition valid (self : t) : t := active self.

Definition has_protocol (self : t) (name : string) : t :=
  List.filter (fun a => Py.substring name (Asset.protocols a)) self.

End AssetQuerySet.

(** ** apps/assets/models/asset/common.py: [NodesRelationMixin] *)

Module NodesRelationMixin.

Section Methods.
Context {Node : Type} `{Countable Node}.

(** What the mixin asks of the node model: [self.nodes.all()], the rows of
    [Node.objects.filter(id=Node.org_root().id)], and
    [node.get_ancestors(with_self=True)]. *)
Variable nodes_all : list Node.
Variable org_root_nodes : list Node.
Variable get_ancestors : Node -> list Node.

Definition get_nodes : list Node :=
  match nodes_all with
  | [] => org_root_nodes
  | _ :: _ => nodes_all
  end.

(** What [get_all_nodes] returns: one list of ancestors per node, or, when
    [flat], one list. *)
Inductive all_nodes : Type :=
| Nested (nodes : list (list Node))
| Flat (nodes : list Node).

(** [reduce(lambda x, y: set(x) | set(y), nodes)] past the first element. *)
Definition reduce_sets (first : list Node) (rest : list (list Node)) : gset Node :=
  fold_left (fun x y => x ∪ list_to_set y) rest (list_to_set first).

(** A set is listed in the order [elements] gives; Python leaves that
    order open.  With a single node [reduce] returns its ancestors as they
    are, and no set is built. *)
Definition get_all_nodes (flat : bool) : result all_nodes :=
  let nodes := get_ancestors <$> get_nodes in
  if flat then
    match nodes with
    | [] => Raises TypeError
    | [only] => Returns (Flat only)
    | first :: rest => Returns (Flat (elements (reduce_sets first rest)))
    end
  else Returns (Nested nodes).

End Methods.

End NodesRelationMixin.

(** * Vocabulary of the specification *)

(** ** Protocol entries *)

(** [i] is an entry [name/port]: a name and a port free of slashes and not
    empty, separated by a slash; whatever follows a second slash is not
    part of the port. *)
Definition is_entry (i name port : string) : Prop :=
  name <> EmptyString /\ port <> EmptyString /\
  Py.contains "/" name = false /\ Py.contains "/" port = false /\
  (i = name +:+ String "/" port \/
   exists more, i = name +:+ String "/" (port +:+ String "/" more)).

Definition entry_for (name i : string) : Prop := exists port, is_entry i name port.

(** Among [items], the last entry for [name] carries the port number [n]. *)
Definition last_entry (items : list string) (name : string) (n : Z) : Prop :=
  exists l1 i l2 port,
    items = l1 ++ i :: l2 /\ is_entry i name port /\ Py.int port = Returns n /\
    Forall (fun j => ~ entry_for name j) l2.

(** Every entry of [items] has a port that [int] accepts. *)
Definition numeric_ports (items : list string) : Prop :=
  Forall (fun i => forall name port, is_entry i name port ->
                   exists n, Py.int port = Returns n) items.


(** The entry an item holds, computed: its first two fields, when the item
    has a slash and neither field is empty. *)
Definition parse_entry (i : string) : option (string * string) :=
  if Py.contains "/" i then
    let name := Py.before "/" i in
    let port := Py.before "/" (Py.after "/" i) in
    if Py.truthy name && Py.truthy port then Some (name, port) else None
  else None.

(** ** Elasticsearch host addresses *)

Definition http_scheme (h : ParseResult) : bool :=
  Py.member (scheme h) ["http"; "https"].

(** The host and port of a network location: what stands before and after
    its colon. *)
Definition host_part (h : ParseResult) : string := Py.before ":" (netloc h).
Definition port_part (h : ParseResult) : string := Py.after ":" (netloc h).


(** Acceptance with a port of at least one digit. *)
Definition accepts (h : ParseResult) : bool :=
  http_scheme h && Py.contains ":" (netloc h)
  && Py.truthy (host_part h)
  && (Py.truthy (port_part h) && Py.forall_chars Py.char_isdigit (port_part h)).


(** ** Sample data *)

Definition linux_platform : Asset.Platform :=
  {| Asset.platform_name := "Linux"; Asset.platform_type := "linux";
     Asset.platform_category := "host" |}.

(** An asset whose caller set a type and a category other than those of
    its platform. *)
Definition sample_asset : Asset.t :=
  {| Asset.id := "8f0c5a1e"; Asset.hostname := "web-1"; Asset.ip := "10.0.0.7";
     Asset.category := "database"; Asset.type := "windows";
     Asset.protocol := "ssh"; Asset.port := 22; Asset.protocols := "ssh/22";
     Asset.platform := linux_platform; Asset.domain := None;
     Asset.is_active := true; Asset.admin_user := None;
     Asset.public_ip := None; Asset.number := None;
     Asset.created_by := Some "admin"; Asset.date_created := None;
     Asset.comment := ""; Asset.org_id := "" |}.

(** The inherited [save] as an observer: it yields the instance it is
    given to write. *)
Definition written_instance (self : Asset.t) (args : unit) : Asset.t := self.

(** ** Bit masks *)

Definition single_bit (i : Z) : Prop := exists k, 0 <= k /\ i = 2 ^ k.

(** The union of a list of masks. *)
Definition lor_all (bits : list Z) : Z := fold_right Z.lor 0 bits.

(** A subclass is well formed when every key of [DB_CHOICES] is a single
    bit, no key is listed twice, every key has a name in [NAME_MAP], and
    [NAME_MAP_REVERSE] is the inverse of [NAME_MAP]. *)
Record well_formed (cls : BitOperationChoice.t) : Prop := {
  wf_single_bit :
    Forall single_bit (BitOperationChoice.DB_CHOICES cls).*1;
  wf_distinct :
    NoDup (BitOperationChoice.DB_CHOICES cls).*1;
  wf_named :
    Forall (fun i => is_Some (BitOperationChoice.NAME_MAP cls !! i))
           (BitOperationChoice.DB_CHOICES cls).*1;
  wf_inverse :
    forall i name,
      BitOperationChoice.NAME_MAP cls !! i = Some name <->
      BitOperationChoice.NAME_MAP_REVERSE cls !! name = Some i;
}.

(** [value] is the union of some of the bits [DB_CHOICES] lists. *)
Definition union_of_choices (cls : BitOperationChoice.t) (value : Z) : Prop :=
  exists bits : list Z,
    bits ⊆ (BitOperationChoice.DB_CHOICES cls).*1 /\ value = lor_all bits.

(** A subclass in the shape the application declares them. *)
Definition sample_actions : BitOperationChoice.t :=
  {| BitOperationChoice.NAME_MAP :=
       <[1 := "connect"]> (<[2 := "upload_file"]> (<[4 := "download_file"]> ∅));
     BitOperationChoice.DB_CHOICES :=
       [(1, "Connect"); (2, "Upload file"); (4, "Download file")];
     BitOperationChoice.NAME_MAP_REVERSE :=
       <["connect" := 1]> (<["upload_file" := 2]> (<["download_file" := 4]> ∅)) |}.

(** ** Deferred calls on a union *)

Section UnionVocabulary.
Context {QS Args : Type} `{QuerySetAPI QS Args}.

(** The calls of [calls] applied to [qs] one after the other, first
    recorded first; an exception ends the chain. *)
Definition apply_calls (calls : list (string * Args)) (qs : QS) : result QS :=
  fold_left (fun acc call => qs ← acc; call_method qs call.1 call.2)
            calls (Returns qs).

(** [first] united with the members of [rest], left to right. *)
Definition union_left (first : QS) (rest : list QS) : result QS :=
  fold_left (fun acc y => x ← acc; qs_union x y) rest (Returns first).

(** The result of a terminal operation, as the specification words it. *)
Definition deferred_result (h : UnionQuerySet.store Args)
    (self : UnionQuerySet.t QS) : result QS :=
  let before := UnionQuerySet.items_at h (UnionQuerySet.before_union_items self) in
  let after := UnionQuerySet.items_at h (UnionQuerySet.after_union_items self) in
  members ← mapM (apply_calls before) (UnionQuerySet.queryset_list self);
  match members with
  | [] => Raises TypeError
  | first :: rest => union_qs ← union_left first rest; apply_calls after union_qs
  end.

(** An object whose two lists are allocated and distinct. *)
Definition valid (h : UnionQuerySet.store Args) (self : UnionQuerySet.t QS) : Prop :=
  is_Some (h !! UnionQuerySet.after_union_items self) /\
  is_Some (h !! UnionQuerySet.before_union_items self) /\
  UnionQuerySet.after_union_items self <> UnionQuerySet.before_union_items self.

(** The list a call recorded in phase [p] goes to, and the other one. *)
Definition list_of (p : UnionQuerySet.phase) (self : UnionQuerySet.t QS)
  : UnionQuerySet.loc :=
  match p with
  | UnionQuerySet.AfterUnion => UnionQuerySet.after_union_items self
  | UnionQuerySet.BeforeUnion => UnionQuerySet.before_union_items self
  end.

Definition other_list_of (p : UnionQuerySet.phase) (self : UnionQuerySet.t QS)
  : UnionQuerySet.loc :=
  match p with
  | UnionQuerySet.AfterUnion => UnionQuerySet.before_union_items self
  | UnionQuerySet.BeforeUnion => UnionQuerySet.after_union_items self
  end.

End UnionVocabulary.

(** Querysets as terms: a table, a method applied to a queryset, a union.
    The methods are those a framework queryset has. *)
Inductive sym_qs : Type :=
| Table (name : string)
| Call (qs : sym_qs) (attr : string) (args : list string)
| Union (x y : sym_qs).

Definition queryset_methods : list string :=
  [ "all"; "filter"; "exclude"; "annotate"; "order_by"; "distinct"; "values";
    "values_list"; "select_related"; "prefetch_related"; "only"; "defer";
    "reverse"; "using"; "union"; "none";
    "get"; "create"; "get_or_create"; "update_or_create"; "bulk_create";
    "count"; "latest"; "earliest"; "first"; "last"; "aggregate"; "exists";
    "update"; "delete"; "as_manager"; "explain";
    "__init__"; "__deepcopy__"; "__getstate__"; "__setstate__"; "__repr__";
    "__len__"; "__iter__"; "__bool__"; "__getitem__"; "__and__"; "__or__" ].

#[global] Instance sym_api : QuerySetAPI sym_qs (list string) := {
  call_method qs attr args :=
    if Py.member attr queryset_methods then Returns (Call qs attr args)
    else Raises AttributeError;
  qs_union x y := Returns (Union x y);
  ismethod qs item := Py.member item queryset_methods;
}.

(** [UnionQuerySet(assets1, assets2)] in an empty store. *)
Definition sample_union : UnionQuerySet.store (list string) * UnionQuerySet.t sym_qs :=
  UnionQuerySet.__init__ ∅ [Table "assets1"; Table "assets2"].

(** ** Multi-table bulk insert *)

Section BulkCreateVocabulary.
Context {V : Type}.

(** [parent] holds exactly the parent-model fields that [child] carries. *)
Definition parent_of (opts : MultiTableChildQueryset.Options)
    (child parent : MultiTableChildQueryset.instance V) : Prop :=
  forall f : string,
    parent !! f =
    if decide (f ∈ MultiTableChildQueryset.parent_fields opts)
    then child !! f else None.

(** [linked] is [child] with its primary-key attribute set to its [id]. *)
Definition linked_to_parent (opts : MultiTableChildQueryset.Options)
    (child linked : MultiTableChildQueryset.instance V) : Prop :=
  exists id,
    child !! "id" = Some id /\
    linked = <[MultiTableChildQueryset.pk_attname opts := id]> child.

(** The queryset once marked for writing. *)
Definition for_write (self : MultiTableChildQueryset.t) : MultiTableChildQueryset.t :=
  {| MultiTableChildQueryset.model_meta := MultiTableChildQueryset.model_meta self;
     MultiTableChildQueryset.db := MultiTableChildQueryset.db self;
     MultiTableChildQueryset._for_write := true |}.

End BulkCreateVocabulary.

(** A child model with two parent columns, and one row to insert. *)
Definition sample_child_queryset : MultiTableChildQueryset.t :=
  {| MultiTableChildQueryset.model_meta :=
       {| MultiTableChildQueryset.pk_attname := "asset_ptr_id";
          MultiTableChildQueryset.parent_fields := ["id"; "hostname"];
          MultiTableChildQueryset.local_fields := ["asset_ptr"; "os"] |};
     MultiTableChildQueryset.db := "default";
     MultiTableChildQueryset._for_write := false |}.

Definition sample_child : MultiTableChildQueryset.instance string :=
  <["id" := "7"]> (<["hostname" := "web-1"]> (<["os" := "linux"]> ∅)).

(** ** Included choices *)

Section IncludesVocabulary.
Context {O : Type}.


(** The member names of all included classes, in order. *)
Definition included_names (includes : list IncludesTextChoicesMeta.Choices)
  : list string :=
  concat (IncludesTextChoicesMeta._member_names_ <$> includes).



Definition empty_enum_dict : IncludesTextChoicesMeta.EnumDict O :=
  {| IncludesTextChoicesMeta.entries := OrderedDict.empty;
     IncludesTextChoicesMeta._member_names := [];
     IncludesTextChoicesMeta._ignore := [] |}.


End IncludesVocabulary.

(** Two choices classes in the shape the application declares them, and a
    third that reuses a member name of the first. *)
Definition host_types : IncludesTextChoicesMeta.Choices :=
  {| IncludesTextChoicesMeta._member_names_ := ["linux"; "windows"];
     IncludesTextChoicesMeta._member_map_ :=
       <["linux" := IncludesTextChoicesMeta.PStr "linux"]>
         (<["windows" := IncludesTextChoicesMeta.PStr "windows"]> ∅);
     IncludesTextChoicesMeta._value2label_map_ :=
       <[IncludesTextChoicesMeta.PStr "linux" := "Linux"]>
         (<[IncludesTextChoicesMeta.PStr "windows" := "Windows"]> ∅) |}.

Definition database_types : IncludesTextChoicesMeta.Choices :=
  {| IncludesTextChoicesMeta._member_names_ := ["mysql"];
     IncludesTextChoicesMeta._member_map_ :=
       <["mysql" := IncludesTextChoicesMeta.PStr "mysql"]> ∅;
     IncludesTextChoicesMeta._value2label_map_ :=
       <[IncludesTextChoicesMeta.PStr "mysql" := "MySQL"]> ∅ |}.


(** The objects of a class body, by what they are. *)
Inductive body_object : Type :=
| Plain (repr : string)
| Descriptor (name : string)
| Names (names : list string).

Definition body_is_descriptor (o : body_object) : bool :=
  match o with
  | Descriptor _ => true
  | _ => false
  end.

Definition body_ignore_names (o : body_object) : list string :=
  match o with
  | Names l => l
  | _ => []
  end.

Definition sample_body : list (string * body_object) :=
  [ ("__module__", Plain "assets.const"); ("__qualname__", Plain "AllTypes");
    ("category", Descriptor "classmethod") ].

(** The namespace once [sample_body] is copied into it. *)
Definition sample_body_attrs : IncludesTextChoicesMeta.EnumDict body_object :=
  {| IncludesTextChoicesMeta.entries :=
       [ ("__module__", IncludesTextChoicesMeta.Body (Plain "assets.const"));
         ("__qualname__", IncludesTextChoicesMeta.Body (Plain "AllTypes"));
         ("category", IncludesTextChoicesMeta.Body (Descriptor "classmethod")) ];
     IncludesTextChoicesMeta._member_names := [];
     IncludesTextChoicesMeta._ignore := [] |}.

Definition sample_protocols : ProtocolsMixin.t :=
  {| ProtocolsMixin.protocols := "ssh/2222 rdp/3389" |}.

(** ** Further vocabulary *)

(** The keys of [DB_CHOICES] that [value] selects, with their labels. *)
Definition selected_choices (cls : BitOperationChoice.t) (value : Z)
  : list (Z * string) :=
  filter (fun c => Z.land value c.1 = c.1) (BitOperationChoice.DB_CHOICES cls).

(** The union of all the bits [DB_CHOICES] lists. *)
Definition listed_bits (cls : BitOperationChoice.t) : Z :=
  lor_all (BitOperationChoice.DB_CHOICES cls).*1.

(** [name] is a key of [NAME_MAP_REVERSE]. *)
Definition known_name (cls : BitOperationChoice.t) (name : string) : Prop :=
  is_Some (BitOperationChoice.NAME_MAP_REVERSE cls !! name).

(** [name] is the name [NAME_MAP] gives to a key of [DB_CHOICES]. *)
Definition choice_name (cls : BitOperationChoice.t) (name : string) : Prop :=
  exists i, i ∈ (BitOperationChoice.DB_CHOICES cls).*1 /\
            BitOperationChoice.NAME_MAP cls !! i = Some name.

Section UnionChains.
Context {QS Args : Type} `{QuerySetAPI QS Args}.

(** The queryset a union yields from its members and the two lists of
    recorded calls. *)
Definition union_result (before after : list (string * Args)) (members : list QS)
  : result QS :=
  ms ← mapM (apply_calls before) members;
  match ms with
  | [] => Raises TypeError
  | first :: rest => union_qs ← union_left first rest; apply_calls after union_qs
  end.

(** A chain of deferred calls, each made on the object the one before it
    returned. *)
Fixpoint record_all (h : UnionQuerySet.store Args) (self : UnionQuerySet.t QS)
    (calls : list (UnionQuerySet.phase * (string * Args)))
  : UnionQuerySet.store Args * UnionQuerySet.t QS :=
  match calls with
  | [] => (h, self)
  | (p, (item, args)) :: rest =>
      let '(h', uqs) := UnionQuerySet.call_partial h self p item args in
      record_all h' uqs rest
  end.

Definition same_phase (p q : UnionQuerySet.phase) : bool :=
  match p, q with
  | UnionQuerySet.BeforeUnion, UnionQuerySet.BeforeUnion
  | UnionQuerySet.AfterUnion, UnionQuerySet.AfterUnion => true
  | _, _ => false
  end.

(** The calls of a chain that were recorded in phase [p], in call order. *)
Definition calls_in (p : UnionQuerySet.phase)
    (calls : list (UnionQuerySet.phase * (string * Args))) : list (string * Args) :=
  snd <$> List.filter (fun c => same_phase c.1 p) calls.

End UnionChains.

(** [UnionQuerySet()] in an empty store. *)
Definition empty_union : UnionQuerySet.store (list string) * UnionQuerySet.t sym_qs :=
  UnionQuerySet.__init__ ∅ [].

(** A name that is neither [_sunder_] nor [__dunder__]. *)
Definition ordinary_name (name : string) : Prop :=
  IncludesTextChoicesMeta._is_sunder name = false /\
  IncludesTextChoicesMeta._is_dunder name = false.

(** * Properties *)

(** ** Strings *)

Section StringFacts.
Implicit Types (s : string) (sep c : ascii).

Lemma truthy_true s : Py.truthy s = true <-> s <> EmptyString.
Proof. destruct s; simpl; split; intros; congruence. Qed.

Lemma split_partition sep s :
  Py.split sep s =
  Py.before sep s ::
    (if Py.contains sep s then Py.split sep (Py.after sep s) else []).
Proof.
  induction s as [|a s IH]; simpl; [done|].
  destruct (Ascii.eqb a sep); [done|].
  rewrite IH. done.
Qed.

Lemma partition_join sep s :
  Py.contains sep s = true ->
  s = Py.before sep s +:+ String sep (Py.after sep s).
Proof.
  induction s as [|a s IH]; simpl; [done|].
  destruct (Ascii.eqb a sep) eqn:E.
  - apply Ascii.eqb_eq in E. by subst.
  - intros Hc.
    change (String a s = String a (Py.before sep s +:+ String sep (Py.after sep s))).
    f_equal. by apply IH.
Qed.

Lemma before_no_sep sep s : Py.contains sep (Py.before sep s) = false.
Proof.
  induction s as [|a s IH]; simpl; [done|].
  destruct (Ascii.eqb a sep) eqn:E; simpl; [done|]. by rewrite E.
Qed.

Lemma before_app sep a b :
  Py.contains sep a = false -> Py.before sep (a +:+ String sep b) = a.
Proof.
  induction a as [|x a IH]; simpl.
  - by rewrite Ascii.eqb_refl.
  - destruct (Ascii.eqb x sep); [done|]. intros Hc. by rewrite IH.
Qed.

Lemma after_app sep a b :
  Py.contains sep a = false -> Py.after sep (a +:+ String sep b) = b.
Proof.
  induction a as [|x a IH]; simpl.
  - by rewrite Ascii.eqb_refl.
  - destruct (Ascii.eqb x sep); [done|]. apply IH.
Qed.

Lemma contains_app sep a b :
  Py.contains sep (a +:+ b) = Py.contains sep a || Py.contains sep b.
Proof.
  induction a as [|x a IH]; simpl; [done|].
  destruct (Ascii.eqb x sep); [done|]. apply IH.
Qed.

Lemma before_id sep s : Py.contains sep s = false -> Py.before sep s = s.
Proof.
  induction s as [|a s IH]; simpl; [done|].
  destruct (Ascii.eqb a sep); [done|]. intros Hc. by rewrite IH.
Qed.

Lemma count_contains sep s :
  Py.contains sep s = true <-> (0 < Py.count sep s)%nat.
Proof.
  induction s as [|a s IH]; simpl; [split; [done|lia]|].
  destruct (Ascii.eqb a sep); [split; [lia|done]|]. apply IH.
Qed.

Lemma count_after sep s :
  Py.contains sep s = true ->
  Py.count sep s = S (Py.count sep (Py.after sep s)).
Proof.
  induction s as [|a s IH]; simpl; [done|].
  destruct (Ascii.eqb a sep); [done|]. apply IH.
Qed.

End StringFacts.

Section OrderedDictFacts.
Context {V : Type}.
Implicit Types (d : OrderedDict.t V) (k : string).

Lemma get_setitem k k' (v : V) d :
  OrderedDict.get k (OrderedDict.setitem k' v d) =
  if String.eqb k k' then Some v else OrderedDict.get k d.
Proof.
  induction d as [|[k0 v0] d IH]; simpl.
  - done.
  - destruct (String.eqb k' k0) eqn:E; simpl.
    + apply String.eqb_eq in E; subst k0.
      by destruct (String.eqb k k').
    + destruct (String.eqb k k0) eqn:E0; [|done].
      apply String.eqb_eq in E0; subst k0.
      destruct (String.eqb k k') eqn:E1; [|done].
      apply String.eqb_eq in E1; subst k'.
      by rewrite String.eqb_refl in E.
Qed.

End OrderedDictFacts.

(** ** ProtocolsMixin *)

Section Protocols.

Lemma take2_split i :
  Py.contains "/" i = true ->
  take 2 (Py.split "/" i) = [Py.before "/" i; Py.before "/" (Py.after "/" i)].
Proof.
  intros Hc. rewrite split_partition, Hc.
  rewrite (split_partition _ (Py.after "/" i)). done.
Qed.

Lemma is_entry_parse i name port :
  is_entry i name port <-> parse_entry i = Some (name, port).
Proof.
  unfold is_entry, parse_entry. split.
  - intros (Hn & Hp & Hcn & Hcp & Hi).
    assert (Hb : Py.before "/" i = name)
      by (destruct Hi as [->|[more ->]]; by apply before_app).
    assert (Ha : Py.before "/" (Py.after "/" i) = port).
    { destruct Hi as [->|[more ->]]; rewrite after_app by done.
      - by apply before_id.
      - by apply before_app. }
    assert (Hc : Py.contains "/" i = true).
    { destruct Hi as [->|[more ->]]; rewrite contains_app; simpl;
        by rewrite orb_true_r. }
    rewrite Hc, Hb, Ha.
    apply truthy_true in Hn, Hp. by rewrite Hn, Hp.
  - destruct (Py.contains "/" i) eqn:Hc; [|done].
    destruct (Py.truthy (Py.before "/" i)) eqn:Hn; [|done].
    destruct (Py.truthy (Py.before "/" (Py.after "/" i))) eqn:Hp; [|done].
    simpl. intros [= <- <-].
    split; [by apply truthy_true|]. split; [by apply truthy_true|].
    split; [apply before_no_sep|]. split; [apply before_no_sep|].
    destruct (Py.contains "/" (Py.after "/" i)) eqn:Hc2.
    + right. exists (Py.after "/" (Py.after "/" i)).
      rewrite <- (partition_join _ _ Hc2). by apply partition_join.
    + left. rewrite (before_id _ _ Hc2). by apply partition_join.
Qed.

Lemma entry_for_parse name i :
  entry_for name i <-> exists port, parse_entry i = Some (name, port).
Proof. unfold entry_for. by setoid_rewrite is_entry_parse. Qed.

(** One turn of the loop, in terms of [parse_entry]. *)
Lemma protocols_loop_step i rest d :
  ProtocolsMixin.protocols_loop (i :: rest) d =
  match parse_entry i with
  | None => ProtocolsMixin.protocols_loop rest d
  | Some (name, port) =>
      n ← Py.int port;
      ProtocolsMixin.protocols_loop rest (OrderedDict.setitem name n d)
  end.
Proof.
  unfold parse_entry. simpl.
  destruct (Py.contains "/" i) eqn:Hc; simpl; [|done].
  rewrite take2_split by done.
  by destruct (Py.truthy (Py.before "/" i) && Py.truthy (Py.before "/" (Py.after "/" i))).
Qed.

Lemma protocols_loop_numeric items : forall d,
  numeric_ports items ->
  exists d', ProtocolsMixin.protocols_loop items d = Returns d' /\
    forall name n, OrderedDict.get name d' = Some n <->
      last_entry items name n \/
      (Forall (fun j => ~ entry_for name j) items /\ OrderedDict.get name d = Some n).
Proof.
  induction items as [|i rest IH]; intros d Hnum.
  - exists d. split; [done|]. intros name n. split.
    + intros Hg. right. by split.
    + intros [(l1 & i & l2 & port & Heq & _)|[_ Hg]]; [|done].
      by destruct l1.
  - apply Forall_cons in Hnum as [Hi Hrest].
    rewrite protocols_loop_step.
    destruct (parse_entry i) as [[name0 port0]|] eqn:Hpe.
    + destruct (Hi name0 port0) as [n0 Hn0]; [by apply is_entry_parse|].
      rewrite Hn0. simpl.
      destruct (IH (OrderedDict.setitem name0 n0 d) Hrest) as (d' & Hd' & Hget).
      exists d'. split; [done|]. intros name n. rewrite Hget, get_setitem.
      split.
      * intros [(l1 & j & l2 & port & -> & Hj & Hint & Hl2)|[Hno Hg]].
        -- left. exists (i :: l1), j, l2, port. done.
        -- destruct (String.eqb name name0) eqn:E.
           ++ apply String.eqb_eq in E. subst name0. injection Hg as <-.
              left. exists [], i, rest, port0.
              split; [done|]. split; [by apply is_entry_parse|]. done.
           ++ right. split; [|done]. constructor; [|done].
              intros [port Hp]. apply is_entry_parse in Hp.
              rewrite Hpe in Hp. injection Hp as -> ->.
              by rewrite String.eqb_refl in E.
      * intros [(l1 & j & l2 & port & Heq & Hj & Hint & Hl2)|[Hno Hg]].
        -- destruct l1 as [|x l1]; simpl in Heq; injection Heq as <- ->.
           ++ right. split; [done|].
              apply is_entry_parse in Hj. rewrite Hpe in Hj.
              injection Hj as -> ->. rewrite String.eqb_refl.
              rewrite Hn0 in Hint. by injection Hint as ->.
           ++ left. exists l1, j, l2, port. done.
        -- apply Forall_cons in Hno as [Hno1 Hno2]. right. split; [done|].
           destruct (String.eqb name name0) eqn:E; [|done].
           apply String.eqb_eq in E. subst name0.
           exfalso. apply Hno1. exists port0. by apply is_entry_parse.
    + destruct (IH d Hrest) as (d' & Hd' & Hget).
      exists d'. split; [done|]. intros name n. rewrite Hget.
      assert (Hnone : ~ entry_for name i).
      { intros [port Hp]. apply is_entry_parse in Hp. congruence. }
      split.
      * intros [(l1 & j & l2 & port & -> & Hj & Hint & Hl2)|[Hno Hg]].
        -- left. exists (i :: l1), j, l2, port. done.
        -- right. split; [by constructor|done].
      * intros [(l1 & j & l2 & port & Heq & Hj & Hint & Hl2)|[Hno Hg]].
        -- destruct l1 as [|x l1]; simpl in Heq; injection Heq as <- ->.
           ++ exfalso. apply Hnone. by exists port.
           ++ left. exists l1, j, l2, port. done.
        -- apply Forall_cons in Hno as [_ Hno2]. by right.
Qed.




End Protocols.



Example protocols_example :
  ProtocolsMixin.protocols_as_dict
    {| ProtocolsMixin.protocols := "ssh/22 rdp/3389 x  ssh/2222 /9 vnc/" |}
  = Returns [("ssh", 2222); ("rdp", 3389)].
Proof. vm_compute. reflexivity. Qed.

Example protocols_bad_port_example :
  ProtocolsMixin.protocols_as_dict {| ProtocolsMixin.protocols := "ssh/22 rdp/tcp" |}
  = Raises ValueError.
Proof. vm_compute. reflexivity. Qed.

(** ** es_host_format_validator *)

Section EsHost.
Context `{UrlParser}.

Lemma split_single_colon s :
  Py.contains ":" s = true -> (Py.count ":" s <= 1)%nat ->
  Py.split ":" s = [Py.before ":" s; Py.after ":" s].
Proof.
  intros Hc Hn. rewrite split_partition, Hc.
  assert (Hno : Py.contains ":" (Py.after ":" s) = false).
  { rewrite (count_after _ _ Hc) in Hn.
    destruct (Py.contains ":" (Py.after ":" s)) eqn:E; [|done].
    apply count_contains in E. lia. }
  rewrite split_partition, Hno. by rewrite (before_id _ _ Hno).
Qed.

Lemma split_many_colons s :
  (2 <= Py.count ":" s)%nat ->
  exists a b c l, Py.split ":" s = a :: b :: c :: l.
Proof.
  intros Hn.
  assert (Hc : Py.contains ":" s = true) by (apply count_contains; lia).
  rewrite (count_after _ _ Hc) in Hn.
  assert (Hc2 : Py.contains ":" (Py.after ":" s) = true)
    by (apply count_contains; lia).
  rewrite split_partition, Hc, split_partition, Hc2.
  rewrite (split_partition _ (Py.after ":" (Py.after ":" s))). eauto.
Qed.

(** A network location with two colons or more leaves the validator with
    a [ValueError], whatever the parser. *)
Lemma es_host_two_colons host h :
  urlparse host = Returns h -> http_scheme h = true ->
  (2 <= Py.count ":" (netloc h))%nat ->
  es_host_format_validator host = Raises ValueError.
Proof.
  intros Hp Hs Hn. unfold es_host_format_validator. rewrite Hp. simpl.
  unfold http_scheme in Hs. rewrite Hs. simpl.
  assert (Hc : Py.contains ":" (netloc h) = true) by (apply count_contains; lia).
  rewrite Hc. simpl.
  destruct (split_many_colons _ Hn) as (a & b & c & l & ->). done.
Qed.

End EsHost.




(** C4.  The validator leaks a [ValueError] on a network location with two
    colons: the two-name unpacking of [split] fails before any check of the
    host or the port. *)
Lemma es_host_format_validator_leaks_ValueError :
  urlparse (UrlParser := reference_parser) "http://es.local:9200:9300"
  = Returns {| scheme := "http"; netloc := "es.local:9200:9300" |} /\
  es_host_format_validator (H := reference_parser) "http://es.local:9200:9300"
  = Raises ValueError.
Proof. vm_compute. split; reflexivity. Qed.

(** ** validate_meta *)

Section ValidateMeta.
Context {V : Type}.
Implicit Types (d other : gmap string V) (k : string).

Lemma dict_update_lookup d other k :
  dict_update d other !! k =
  match other !! k with
  | Some v => Some v
  | None => d !! k
  end.
Proof.
  unfold dict_update. destruct (other !! k) as [v|] eqn:E.
  - by apply lookup_union_Some_l.
  - by apply lookup_union_r.
Qed.

Lemma dict_update_empty other : dict_update ∅ other = other.
Proof.
  apply map_eq. intros k. rewrite dict_update_lookup.
  destruct (other !! k); [done|]. apply lookup_empty.
Qed.

(** The stored dictionary is the one updated: after the call the
    instance holds the returned dictionary. *)
Lemma validate_meta_updates_instance (inst : Storage V) meta_in :
  let '(m, self) :=
    ReplayStorageSerializer.validate_meta
      {| ReplayStorageSerializer.instance := Some inst |} meta_in in
  meta <$> ReplayStorageSerializer.instance self = Some m.
Proof. done. Qed.

End ValidateMeta.

(** C10.  With an instance, [validate_meta] of either serializer returns
    the instance's stored [meta] updated with the incoming one: a key of the
    input has the input's value, and a key of the stored dictionary that the
    input lacks keeps its stored value.  With no instance the input is
    returned as it is. *)
Theorem validate_meta_update {V : Type} (inst : Storage V) (meta_in : gmap string V) :
  let replay :=
    (ReplayStorageSerializer.validate_meta
       {| ReplayStorageSerializer.instance := Some inst |} meta_in).1 in
  let command :=
    (CommandStorageSerializer.validate_meta
       {| CommandStorageSerializer.instance := Some inst |} meta_in).1 in
  (forall k v, meta_in !! k = Some v ->
               replay !! k = Some v /\ command !! k = Some v) /\
  (forall k, meta_in !! k = None ->
             replay !! k = meta inst !! k /\ command !! k = meta inst !! k) /\
  (ReplayStorageSerializer.validate_meta
     {| ReplayStorageSerializer.instance := None |} meta_in).1 = meta_in /\
  (CommandStorageSerializer.validate_meta
     {| CommandStorageSerializer.instance := None |} meta_in).1 = meta_in.
Proof.
  simpl. split; [|split; [|split]].
  - intros k v Hk. rewrite !dict_update_lookup, Hk. done.
  - intros k Hk. rewrite !dict_update_lookup, Hk. done.
  - apply dict_update_empty.
  - apply dict_update_empty.
Qed.

(** ** Asset.save *)

(** C8, as amended.  [Asset.save] hands the inherited [save] an instance
    whose [type] and [category] are those of its platform, and whose every
    other field is the caller's. *)
Theorem save_sets_type_and_category {Args R : Type}
    (super_save : Asset.t -> Args -> R) (self : Asset.t) (args : Args) :
  exists written : Asset.t,
    Asset.save super_save self args = super_save written args /\
    Asset.type written = Asset.platform_type (Asset.platform self) /\
    Asset.category written = Asset.platform_category (Asset.platform self) /\
    Asset.id written = Asset.id self /\
    Asset.hostname written = Asset.hostname self /\
    Asset.ip written = Asset.ip self /\
    Asset.protocol written = Asset.protocol self /\
    Asset.port written = Asset.port self /\
    Asset.protocols written = Asset.protocols self /\
    Asset.platform written = Asset.platform self /\
    Asset.domain written = Asset.domain self /\
    Asset.is_active written = Asset.is_active self /\
    Asset.admin_user written = Asset.admin_user self /\
    Asset.public_ip written = Asset.public_ip self /\
    Asset.number written = Asset.number self /\
    Asset.created_by written = Asset.created_by self /\
    Asset.date_created written = Asset.date_created self /\
    Asset.comment written = Asset.comment self /\
    Asset.org_id written = Asset.org_id self.
Proof.
  eexists. split; [reflexivity|]. simpl. repeat split.
Qed.

(** C8, as stated, fails: the caller's [type] and [category] do not reach
    the database when they differ from the platform's. *)
Lemma save_overwrites_type_and_category :
  Asset.type sample_asset = "windows" /\
  Asset.category sample_asset = "database" /\
  Asset.type (Asset.save written_instance sample_asset tt) = "linux" /\
  Asset.category (Asset.save written_instance sample_asset tt) = "host".
Proof. repeat split. Qed.

(** ** BitOperationChoice *)

Section BitChoices.
Implicit Types (cls : BitOperationChoice.t) (bits : list Z).

Lemma lor_all_testbit bits n :
  Z.testbit (lor_all bits) n = existsb (fun i => Z.testbit i n) bits.
Proof.
  induction bits as [|b bits IH]; simpl.
  - apply Z.testbit_0_l.
  - by rewrite Z.lor_spec, IH.
Qed.

Lemma reduce_lor x bits :
  BitOperationChoice.reduce BitOperationChoice.to_choices x bits
  = lor_all (x :: bits).
Proof.
  unfold BitOperationChoice.reduce. revert x.
  induction bits as [|b bits IH]; intros x; simpl.
  - by rewrite Z.lor_0_r.
  - rewrite IH. simpl. unfold BitOperationChoice.to_choices.
    by rewrite Z.lor_assoc.
Qed.

Lemma choices_to_value_lor cls names :
  BitOperationChoice.choices_to_value cls (BitOperationChoice.VList names)
  = lor_all (BitOperationChoice.db_values cls names).
Proof.
  unfold BitOperationChoice.choices_to_value.
  destruct (BitOperationChoice.db_values cls names) as [|x l]; [done|].
  apply reduce_lor.
Qed.

(** A single bit is selected by [value & i == i] exactly when it is set. *)
Lemma land_single_bit v k :
  0 <= k -> (Z.land v (2 ^ k) =? 2 ^ k) = Z.testbit v k.
Proof.
  intros Hk. destruct (Z.testbit v k) eqn:Hb.
  - apply Z.eqb_eq. apply Z.bits_inj'. intros m Hm.
    rewrite Z.land_spec, Z.pow2_bits_eqb by done.
    destruct (Z.eqb_spec k m) as [->|]; [by rewrite Hb|apply andb_false_r].
  - apply Z.eqb_neq. intros Heq.
    assert (Z.testbit (Z.land v (2 ^ k)) k = true) as Hk'.
    { rewrite Heq, Z.pow2_bits_eqb by done. apply Z.eqb_refl. }
    rewrite Z.land_spec, Hb in Hk'. done.
Qed.

(** The names selected for [v] map back to the selected keys. *)
Lemma selected_names_db_values cls v choices :
  Forall (fun i => is_Some (BitOperationChoice.NAME_MAP cls !! i)) choices.*1 ->
  (forall i name,
      BitOperationChoice.NAME_MAP cls !! i = Some name ->
      BitOperationChoice.NAME_MAP_REVERSE cls !! name = Some i) ->
  exists names,
    BitOperationChoice.selected_names cls v choices = Returns names /\
    BitOperationChoice.db_values cls names
    = filter (fun i => Z.land v i = i) choices.*1.
Proof.
  intros Hnamed Hinv.
  induction choices as [|[i j] choices IH]; simpl.
  - by exists [].
  - simpl in Hnamed. apply Forall_cons in Hnamed as [[name Hname] Hrest].
    destruct (IH Hrest) as (names & Hsel & Hdb).
    rewrite filter_cons.
    destruct (Z.eqb_spec (Z.land v i) i) as [Heq|Hne].
    + rewrite Hname, Hsel. simpl. exists (name :: names). split; [done|].
      simpl. rewrite (Hinv _ _ Hname), Hdb.
      by rewrite decide_True.
    + exists names. split; [done|]. by rewrite decide_False.
Qed.

Lemma lor_selected_bits keys bits :
  Forall single_bit keys -> bits ⊆ keys ->
  lor_all (filter (fun i => Z.land (lor_all bits) i = i) keys) = lor_all bits.
Proof.
  intros Hsingle Hsub. apply Z.bits_inj'. intros n Hn.
  rewrite !lor_all_testbit.
  apply eq_true_iff_eq. rewrite !existsb_exists. split.
  - intros (i & Hin & Hbit).
    apply list_elem_of_In, list_elem_of_filter in Hin as [Hsel Hin].
    rewrite Forall_forall in Hsingle.
    destruct (Hsingle i Hin) as (k & Hk & ->).
    rewrite Z.pow2_bits_eqb in Hbit by done.
    apply Z.eqb_eq in Hbit. subst n.
    apply Z.eqb_eq in Hsel. rewrite land_single_bit in Hsel by done.
    rewrite lor_all_testbit in Hsel. by apply existsb_exists in Hsel.
  - intros (b & Hin & Hbit). exists b. split; [|done].
    apply list_elem_of_In, list_elem_of_filter. apply list_elem_of_In in Hin.
    split; [|by apply Hsub].
    rewrite Forall_forall in Hsingle.
    destruct (Hsingle b (Hsub b Hin)) as (k & Hk & ->).
    rewrite Z.pow2_bits_eqb in Hbit by done.
    apply Z.eqb_eq in Hbit. subst n.
    apply Z.eqb_eq. rewrite land_single_bit by done.
    rewrite lor_all_testbit. apply existsb_exists.
    exists (2 ^ k). split; [by apply list_elem_of_In|].
    rewrite Z.pow2_bits_eqb by done. apply Z.eqb_refl.
Qed.

Lemma db_values_unknown cls names :
  Forall (fun v => BitOperationChoice.NAME_MAP_REVERSE cls !! v = None) names ->
  BitOperationChoice.db_values cls names = [].
Proof.
  induction 1 as [|v names Hv _ IH]; simpl; [done|]. by rewrite Hv.
Qed.

Lemma sample_actions_well_formed : well_formed sample_actions.
Proof.
  split; simpl.
  - repeat constructor.
    + exists 0. by split.
    + exists 1. by split.
    + exists 2. by split.
  - apply (bool_decide_unpack _). vm_compute. exact I.
  - repeat constructor; by eexists.
  - intros i name. split.
    + intros Hi.
      destruct (decide (i = 1)) as [->|]; [vm_compute in Hi; by injection Hi as <-|].
      destruct (decide (i = 2)) as [->|]; [vm_compute in Hi; by injection Hi as <-|].
      destruct (decide (i = 4)) as [->|]; [vm_compute in Hi; by injection Hi as <-|].
      rewrite !lookup_insert_ne in Hi by done. by rewrite lookup_empty in Hi.
    + intros Hn.
      destruct (decide (name = "connect")) as [->|];
        [vm_compute in Hn; by injection Hn as <-|].
      destruct (decide (name = "upload_file")) as [->|];
        [vm_compute in Hn; by injection Hn as <-|].
      destruct (decide (name = "download_file")) as [->|];
        [vm_compute in Hn; by injection Hn as <-|].
      rewrite !lookup_insert_ne in Hn by done. by rewrite lookup_empty in Hn.
Defined.

End BitChoices.

(** C5.  For a well-formed subclass and a value that is a union of bits
    listed in [DB_CHOICES], converting the value to choices and back gives
    the value again.  [choices_to_value] is [NONE], that is 0, on an
    argument that is not a list and on a list none of whose elements is a
    key of [NAME_MAP_REVERSE]. *)
Theorem choices_round_trip (cls : BitOperationChoice.t) (value : Z) :
  well_formed cls ->
  union_of_choices cls value ->
  (exists names,
      BitOperationChoice.value_to_choices cls (BitOperationChoice.VInt value)
      = Returns names /\
      BitOperationChoice.choices_to_value cls (BitOperationChoice.VList names)
      = value) /\
  BitOperationChoice.NONE = 0 /\
  (forall z, BitOperationChoice.choices_to_value cls (BitOperationChoice.VInt z)
             = BitOperationChoice.NONE) /\
  (forall s, BitOperationChoice.choices_to_value cls (BitOperationChoice.VStr s)
             = BitOperationChoice.NONE) /\
  BitOperationChoice.choices_to_value cls BitOperationChoice.VNone
  = BitOperationChoice.NONE /\
  (forall names,
      Forall (fun v => BitOperationChoice.NAME_MAP_REVERSE cls !! v = None) names ->
      BitOperationChoice.choices_to_value cls (BitOperationChoice.VList names)
      = BitOperationChoice.NONE).
Proof.
  intros [Hsingle _ Hnamed Hinv] (bits & Hsub & ->).
  split; [|repeat split].
  - destruct (selected_names_db_values cls (lor_all bits)
                (BitOperationChoice.DB_CHOICES cls) Hnamed)
      as (names & Hsel & Hdb); [intros i name; apply Hinv|].
    exists names. split; [done|].
    rewrite choices_to_value_lor, Hdb. by apply lor_selected_bits.
  - intros names Hnone. rewrite choices_to_value_lor.
    by rewrite db_values_unknown.
Qed.

Lemma choices_round_trip_witness :
  exists names,
    BitOperationChoice.value_to_choices sample_actions (BitOperationChoice.VInt 5)
    = Returns names /\
    BitOperationChoice.choices_to_value sample_actions (BitOperationChoice.VList names)
    = 5.
Proof.
  apply (choices_round_trip sample_actions 5 sample_actions_well_formed).
  exists [1; 4]. split; [|reflexivity].
  intros x Hx. simpl.
  apply list_elem_of_In in Hx. apply list_elem_of_In.
  simpl in *. tauto.
Defined.

Example value_to_choices_example :
  BitOperationChoice.value_to_choices sample_actions (BitOperationChoice.VInt 5)
  = Returns ["connect"; "download_file"].
Proof. vm_compute. reflexivity. Qed.

(** ** UnionQuerySet *)

Section Union.
Context {QS Args : Type} `{QuerySetAPI QS Args}.
Implicit Types (h : UnionQuerySet.store Args) (self : UnionQuerySet.t QS).
Implicit Types (calls : list (string * Args)) (qs : QS).

Lemma apply_calls_from calls : forall (r : result QS),
  fold_left (fun acc call => qs ← acc; call_method qs call.1 call.2) calls r
  = r ≫= UnionQuerySet.perform_items calls.
Proof.
  induction calls as [|[attr args] calls IH]; intros r; simpl.
  - by destruct r.
  - rewrite IH. by destruct r.
Qed.

Lemma perform_items_apply_calls calls qs :
  UnionQuerySet.perform_items calls qs = apply_calls calls qs.
Proof. unfold apply_calls. by rewrite apply_calls_from. Qed.

Lemma union_left_from rest : forall (r : result QS),
  fold_left (fun acc y => x ← acc; qs_union x y) rest r
  = r ≫= fun x => UnionQuerySet.reduce_from x rest.
Proof.
  induction rest as [|y rest IH]; intros r; simpl.
  - by destruct r.
  - rewrite IH. by destruct r.
Qed.

Lemma reduce_union_left first rest :
  UnionQuerySet.reduce (first :: rest) = union_left first rest.
Proof. unfold union_left. by rewrite union_left_from. Qed.

Lemma collect_mapM members calls : forall (acc : list QS),
  UnionQuerySet.collect members calls acc
  = ms ← mapM (apply_calls calls) members; mret (acc ++ ms).
Proof.
  induction members as [|qs members IH]; intros acc; simpl.
  - by rewrite app_nil_r.
  - rewrite perform_items_apply_calls.
    destruct (apply_calls calls qs) as [qs'|e]; simpl; [|done].
    rewrite IH.
    destruct (mapM (apply_calls calls) members) as [ms|e]; simpl; [|done].
    by rewrite <- app_assoc.
Qed.

Lemma execute_deferred_result h self :
  UnionQuerySet.__execute h self = deferred_result h self.
Proof.
  unfold UnionQuerySet.__execute, deferred_result.
  rewrite collect_mapM.
  destruct (mapM _ (UnionQuerySet.queryset_list self)) as [ms|e]; simpl; [|done].
  destruct ms as [|first rest]; simpl; [done|].
  change (UnionQuerySet.reduce_from first rest)
    with (UnionQuerySet.reduce (first :: rest)).
  rewrite reduce_union_left.
  destruct (union_left first rest) as [u|e]; simpl; [|done].
  apply perform_items_apply_calls.
Qed.

Lemma not_return_qs_not_own item :
  Py.member item UnionQuerySet.not_return_qs = true ->
  UnionQuerySet.own_attribute item = false.
Proof.
  intros Hm. apply bool_decide_eq_true in Hm.
  repeat (apply elem_of_cons in Hm as [->|Hm]; [by vm_compute|]).
  by apply elem_of_nil in Hm.
Qed.

End Union.

(** C2.  A terminal operation on a [UnionQuerySet], be it an attribute of
    [not_return_qs], indexing or iteration, is served from the queryset
    obtained by applying every recorded before-union call, in recording
    order, to each member queryset, uniting the results left to right, and
    applying every recorded after-union call, in recording order, to the
    union. *)
Theorem terminal_operation_executes {QS Args : Type} `{QuerySetAPI QS Args}
    (h : UnionQuerySet.store Args) (self : UnionQuerySet.t QS) :
  UnionQuerySet.__iter__ h self = deferred_result h self /\
  UnionQuerySet.__getitem__ h self = deferred_result h self /\
  Forall (fun item =>
            UnionQuerySet.__getattribute__ h self item
            = union_qs ← deferred_result h self;
              mret (UnionQuerySet.UnionAttribute union_qs item))
         UnionQuerySet.not_return_qs.
Proof.
  split; [apply execute_deferred_result|].
  split; [apply execute_deferred_result|].
  apply Forall_forall. intros item Hin.
  unfold UnionQuerySet.__getattribute__.
  assert (Hm : Py.member item UnionQuerySet.not_return_qs = true)
    by (by apply bool_decide_eq_true).
  rewrite (not_return_qs_not_own item Hm), Hm.
  by rewrite execute_deferred_result.
Qed.

Example union_count_example :
  let '(h, uqs) := sample_union in
  let '(h, uqs) := UnionQuerySet.call_partial h uqs UnionQuerySet.BeforeUnion
                     "filter" ["is_active=True"] in
  let '(h, uqs) := UnionQuerySet.call_partial h uqs UnionQuerySet.AfterUnion
                     "order_by" ["hostname"] in
  UnionQuerySet.__getattribute__ h uqs "count"
  = Returns (UnionQuerySet.UnionAttribute
               (Call (Union (Call (Table "assets1") "filter" ["is_active=True"])
                            (Call (Table "assets2") "filter" ["is_active=True"]))
                     "order_by" ["hostname"])
               "count").
Proof. vm_compute. reflexivity. Qed.

Section Deferral.
Context {QS Args : Type} `{QuerySetAPI QS Args}.
Implicit Types (h : UnionQuerySet.store Args) (self : UnionQuerySet.t QS).
Implicit Types (l : UnionQuerySet.loc).

Lemma alloc_spec h :
  h !! (UnionQuerySet.alloc h).2 = None /\
  (UnionQuerySet.alloc h).1 = <[(UnionQuerySet.alloc h).2 := []]> h.
Proof.
  unfold UnionQuerySet.alloc. simpl. split; [|done].
  apply not_elem_of_dom_1, is_fresh.
Qed.

(** Allocation leaves the lists that exist as they are. *)
Lemma alloc_preserves h l :
  is_Some (h !! l) -> (UnionQuerySet.alloc h).1 !! l = h !! l.
Proof.
  intros Hl. destruct (alloc_spec h) as [Hfresh ->].
  apply lookup_insert_ne. intros <-. rewrite Hfresh in Hl. by destruct Hl.
Qed.

Lemma init_spec h (qsl : list QS) :
  let '(h', uqs) := UnionQuerySet.__init__ h qsl in
  UnionQuerySet.queryset_list uqs = qsl /\
  valid h' uqs /\
  UnionQuerySet.items_at h' (UnionQuerySet.after_union_items uqs) = [] /\
  UnionQuerySet.items_at h' (UnionQuerySet.before_union_items uqs) = [] /\
  forall l, is_Some (h !! l) -> h' !! l = h !! l.
Proof.
  unfold UnionQuerySet.__init__.
  destruct (UnionQuerySet.alloc h) as [h1 a] eqn:E1.
  destruct (UnionQuerySet.alloc h1) as [h2 b] eqn:E2.
  pose proof (alloc_spec h) as [Ha Hh1]. rewrite E1 in Ha, Hh1. simpl in *.
  pose proof (alloc_spec h1) as [Hb Hh2]. rewrite E2 in Hb, Hh2. simpl in *.
  assert (Hab : a <> b).
  { intros <-. rewrite Hh1, lookup_insert_eq in Hb. done. }
  unfold valid, UnionQuerySet.items_at. simpl. subst h2 h1.
  rewrite lookup_insert_eq, lookup_insert_ne, lookup_insert_eq by done.
  repeat split; try done; try by eexists.
  intros l Hl.
  rewrite !lookup_insert_ne; [done| |].
  - intros <-. rewrite Ha in Hl. by destruct Hl.
  - intros <-. rewrite lookup_insert_ne in Hb; [|done].
    rewrite Hb in Hl. by destruct Hl.
Qed.

Lemma clone_spec h self (qsl : list QS) :
  let '(h', uqs) := UnionQuerySet.__clone h self qsl in
  UnionQuerySet.queryset_list uqs = qsl /\
  UnionQuerySet.after_union_items uqs = UnionQuerySet.after_union_items self /\
  UnionQuerySet.before_union_items uqs = UnionQuerySet.before_union_items self /\
  forall l, is_Some (h !! l) -> h' !! l = h !! l.
Proof.
  unfold UnionQuerySet.__clone.
  pose proof (init_spec h qsl) as Hinit.
  destruct (UnionQuerySet.__init__ h qsl) as [h' uqs].
  destruct Hinit as (Hq & _ & _ & _ & Hpres). done.
Qed.

Lemma append_lookup h l l' (x : string * Args) :
  UnionQuerySet.append h l x !! l' =
  if decide (l = l') then Some (UnionQuerySet.items_at h l ++ [x]) else h !! l'.
Proof. unfold UnionQuerySet.append. apply lookup_insert. Qed.

(** Recording a call: the list of its phase gains the call at its end,
    the other list and the members stay, and the clone shares both
    lists with the object. *)
Lemma call_partial_spec h self p item (args : Args) :
  valid h self ->
  let '(h', uqs) := UnionQuerySet.call_partial h self p item args in
  UnionQuerySet.queryset_list uqs = UnionQuerySet.queryset_list self /\
  UnionQuerySet.after_union_items uqs = UnionQuerySet.after_union_items self /\
  UnionQuerySet.before_union_items uqs = UnionQuerySet.before_union_items self /\
  UnionQuerySet.items_at h' (list_of p self)
  = UnionQuerySet.items_at h (list_of p self) ++ [(item, args)] /\
  UnionQuerySet.items_at h' (other_list_of p self)
  = UnionQuerySet.items_at h (other_list_of p self) /\
  valid h' uqs.
Proof.
  intros (Ha & Hb & Hab).
  assert (Hcall : UnionQuerySet.call_partial h self p item args
                  = UnionQuerySet.__clone
                      (UnionQuerySet.append h (list_of p self) (item, args))
                      self (UnionQuerySet.queryset_list self))
    by by destruct p.
  rewrite Hcall. clear Hcall.
  set (h1 := UnionQuerySet.append h (list_of p self) (item, args)).
  pose proof (clone_spec h1 self (UnionQuerySet.queryset_list self)) as Hclone.
  destruct (UnionQuerySet.__clone h1 self (UnionQuerySet.queryset_list self))
    as [h' uqs].
  destruct Hclone as (Hq & Hafter & Hbefore & Hpres).
  assert (Hne : list_of p self <> other_list_of p self)
    by (destruct p; simpl; congruence).
  assert (H1 : h1 !! list_of p self
               = Some (UnionQuerySet.items_at h (list_of p self) ++ [(item, args)])).
  { unfold h1. rewrite append_lookup. by rewrite decide_True. }
  assert (H2 : h1 !! other_list_of p self = h !! other_list_of p self).
  { unfold h1. rewrite append_lookup. by rewrite decide_False. }
  assert (Hother : is_Some (h !! other_list_of p self)) by by destruct p.
  assert (H1' : h' !! list_of p self = h1 !! list_of p self)
    by (apply Hpres; rewrite H1; by eexists).
  assert (H2' : h' !! other_list_of p self = h1 !! other_list_of p self)
    by (apply Hpres; by rewrite H2).
  split; [done|]. split; [done|]. split; [done|].
  split; [unfold UnionQuerySet.items_at at 1; by rewrite H1', H1|].
  split; [unfold UnionQuerySet.items_at; by rewrite H2', H2|].
  unfold valid. rewrite Hafter, Hbefore.
  destruct p; simpl in *.
  - rewrite H2', H2, H1', H1. split; [done|]. split; [by eexists|done].
  - rewrite H2', H2, H1', H1. split; [by eexists|]. split; [done|done].
Qed.

End Deferral.

(** C1, as amended.  Let [item] be a method of the first member queryset
    that is not in [not_return_qs], whose name does not start with two
    underscores and is not a name the class or the object binds itself.
    Getting it from a [UnionQuerySet] does not run the union: it yields a
    partial call, an after-union one exactly when [item] is [order_by].
    Calling that partial records the call at the end of the list of its
    phase and changes nothing else: the other list is as before, and the
    object returned has the same member querysets and the same two lists. *)
Theorem deferred_call_recorded {QS Args : Type} `{QuerySetAPI QS Args}
    (h : UnionQuerySet.store Args) (self : UnionQuerySet.t QS)
    (origin : QS) (item : string) (args : Args) :
  valid h self ->
  head (UnionQuerySet.queryset_list self) = Some origin ->
  ismethod origin item = true ->
  Py.member item UnionQuerySet.not_return_qs = false ->
  UnionQuerySet.own_attribute item = false ->
  exists p,
    UnionQuerySet.__getattribute__ h self item
    = Returns (UnionQuerySet.Partial p item) /\
    (p = UnionQuerySet.AfterUnion <-> item = "order_by") /\
    let '(h', uqs) := UnionQuerySet.call_partial h self p item args in
    UnionQuerySet.queryset_list uqs = UnionQuerySet.queryset_list self /\
    UnionQuerySet.after_union_items uqs = UnionQuerySet.after_union_items self /\
    UnionQuerySet.before_union_items uqs = UnionQuerySet.before_union_items self /\
    UnionQuerySet.items_at h' (list_of p self)
    = UnionQuerySet.items_at h (list_of p self) ++ [(item, args)] /\
    UnionQuerySet.items_at h' (other_list_of p self)
    = UnionQuerySet.items_at h (other_list_of p self) /\
    valid h' uqs.
Proof.
  intros Hvalid Hhead Hmeth Hterm Hown.
  exists (if decide (item = "order_by")
          then UnionQuerySet.AfterUnion else UnionQuerySet.BeforeUnion).
  split; [|split].
  - unfold UnionQuerySet.__getattribute__. rewrite Hown, Hterm.
    destruct (UnionQuerySet.queryset_list self) as [|q qs]; [done|].
    injection Hhead as ->. rewrite Hmeth. simpl.
    unfold Py.member, UnionQuerySet.after_union.
    destruct (decide (item = "order_by")) as [->|Hne].
    + by rewrite bool_decide_eq_true_2 by (by apply list_elem_of_singleton).
    + by rewrite bool_decide_eq_false_2 by (by rewrite list_elem_of_singleton).
  - by destruct (decide (item = "order_by")).
  - by apply call_partial_spec.
Qed.

Lemma deferred_call_recorded_witness :
  exists p,
    UnionQuerySet.__getattribute__ sample_union.1 sample_union.2 "filter"
    = Returns (UnionQuerySet.Partial p "filter") /\
    (p = UnionQuerySet.AfterUnion <-> "filter" = "order_by") /\
    let '(h', uqs) :=
      UnionQuerySet.call_partial sample_union.1 sample_union.2 p
        "filter" ["is_active=True"] in
    UnionQuerySet.queryset_list uqs = UnionQuerySet.queryset_list sample_union.2 /\
    UnionQuerySet.after_union_items uqs
    = UnionQuerySet.after_union_items sample_union.2 /\
    UnionQuerySet.before_union_items uqs
    = UnionQuerySet.before_union_items sample_union.2 /\
    UnionQuerySet.items_at h' (list_of p sample_union.2)
    = UnionQuerySet.items_at sample_union.1 (list_of p sample_union.2)
      ++ [("filter", ["is_active=True"])] /\
    UnionQuerySet.items_at h' (other_list_of p sample_union.2)
    = UnionQuerySet.items_at sample_union.1 (other_list_of p sample_union.2) /\
    valid h' uqs.
Proof.
  apply (deferred_call_recorded sample_union.1 sample_union.2
           (Table "assets1") "filter" ["is_active=True"]).
  - apply (init_spec (QS := sym_qs) (Args := list string) ∅
             [Table "assets1"; Table "assets2"]).
  - reflexivity.
  - vm_compute. reflexivity.
  - vm_compute. reflexivity.
  - vm_compute. reflexivity.
Defined.

(** C1, as stated, fails on [__iter__]: it is a method of a queryset and is
    not in [not_return_qs], yet getting it from a [UnionQuerySet] yields
    the object's own method, which runs the union and records nothing. *)
Lemma dunder_method_executes :
  ismethod (Table "assets1") "__iter__" = true /\
  Py.member "__iter__" UnionQuerySet.not_return_qs = false /\
  UnionQuerySet.__getattribute__ sample_union.1 sample_union.2 "__iter__"
  = Returns (UnionQuerySet.OwnAttribute "__iter__") /\
  UnionQuerySet.__iter__ sample_union.1 sample_union.2
  = Returns (Union (Table "assets1") (Table "assets2")).
Proof. vm_compute. repeat split; reflexivity. Qed.

(** The item lists are shared: a call recorded through one object shows in
    every clone and in the object itself, here in what the original object
    executes after [filter] was called on it. *)
Example recorded_call_is_shared :
  let '(h, uqs) := sample_union in
  let '(h', _) := UnionQuerySet.call_partial h uqs UnionQuerySet.BeforeUnion
                    "filter" ["is_active=True"] in
  UnionQuerySet.__iter__ h' uqs
  = Returns (Union (Call (Table "assets1") "filter" ["is_active=True"])
                   (Call (Table "assets2") "filter" ["is_active=True"])).
Proof. vm_compute. reflexivity. Qed.

(** ** MultiTableChildQueryset.bulk_create *)

Section BulkCreate.
Context {V : Type}.
Implicit Types (obj : MultiTableChildQueryset.instance V).
Implicit Types (opts : MultiTableChildQueryset.Options).

Lemma fill_parent_values_spec obj fields : forall (acc : gmap string V),
  exists m,
    MultiTableChildQueryset.fill_parent_values obj fields acc = Returns m /\
    forall f : string,
      m !! f = if decide (f ∈ fields)
               then (match obj !! f with Some v => Some v | None => acc !! f end)
               else acc !! f.
Proof.
  induction fields as [|f0 fields IH]; intros acc;
    cbn [MultiTableChildQueryset.fill_parent_values].
  - exists acc. split; [done|]. intros f.
    rewrite decide_False; [done|]. apply not_elem_of_nil.
  - unfold MultiTableChildQueryset.hasattr, MultiTableChildQueryset.getattr.
    destruct (obj !! f0) as [v0|] eqn:Hf0.
    + rewrite bool_decide_eq_true_2 by (by eexists).
      cbn [mbind result_bind].
      destruct (IH (<[f0 := v0]> acc)) as (m & Hm & Hlook).
      exists m. split; [done|]. intros f. rewrite Hlook.
      destruct (decide (f = f0)) as [->|Hne].
      * rewrite lookup_insert_eq, Hf0.
        rewrite (decide_True (P := f0 ∈ f0 :: fields)) by apply list_elem_of_here.
        by destruct (decide (f0 ∈ fields)).
      * rewrite lookup_insert_ne by done.
        destruct (decide (f ∈ fields)) as [Hin|Hnin].
        -- by rewrite decide_True by (by apply list_elem_of_further).
        -- rewrite decide_False; [done|].
           intros [?|?]%elem_of_cons; done.
    + rewrite bool_decide_eq_false_2 by (intros [? ?]; done).
      destruct (IH acc) as (m & Hm & Hlook).
      exists m. split; [done|]. intros f. rewrite Hlook.
      destruct (decide (f = f0)) as [->|Hne].
      * rewrite Hf0.
        rewrite (decide_True (P := f0 ∈ f0 :: fields)) by apply list_elem_of_here.
        by destruct (decide (f0 ∈ fields)).
      * destruct (decide (f ∈ fields)) as [Hin|Hnin].
        -- by rewrite decide_True by (by apply list_elem_of_further).
        -- rewrite decide_False; [done|].
           intros [?|?]%elem_of_cons; done.
Qed.

Lemma build_parents_spec opts (objs : list (MultiTableChildQueryset.instance V)) :
  forall acc,
    Forall (fun obj => is_Some (obj !! "id")) objs ->
    exists parents children,
      MultiTableChildQueryset.build_parents opts objs acc
      = Returns (acc ++ parents, children) /\
      Forall2 (parent_of opts) objs parents /\
      Forall2 (linked_to_parent opts) objs children.
Proof.
  induction objs as [|obj objs IH]; intros acc Hids;
    cbn [MultiTableChildQueryset.build_parents].
  - exists [], []. rewrite app_nil_r. by repeat split; constructor.
  - apply Forall_cons in Hids as [[id Hid] Hids].
    destruct (fill_parent_values_spec obj
                (MultiTableChildQueryset.parent_fields opts) ∅)
      as (p & -> & Hp).
    unfold MultiTableChildQueryset.getattr. rewrite Hid.
    cbn [mbind result_bind].
    destruct (IH (acc ++ [p]) Hids) as (parents & children & Hb & Hps & Hcs).
    exists (p :: parents), (<[MultiTableChildQueryset.pk_attname opts := id]> obj :: children).
    rewrite Hb. cbn [mbind result_bind mret result_ret].
    rewrite <- app_assoc. split; [done|]. split.
    + constructor; [|done]. intros f. rewrite Hp, lookup_empty.
      destruct (decide (f ∈ MultiTableChildQueryset.parent_fields opts)); [|done].
      by destruct (obj !! f).
    + constructor; [|done]. by exists id.
Qed.

End BulkCreate.

(** C6, as amended.  [bulk_create] first asserts that [batch_size] is
    [None] or positive, whatever [objs] is.  That passed, an empty [objs]
    is returned unchanged and nothing is inserted.  For a non-empty [objs]
    of children that have an [id], one parent is built per child, holding
    every parent-model field the child carries; each child gets its
    primary-key attribute set to its [id]; the parents are bulk-created
    first, the children are inserted next inside a transaction, and the
    list of children is returned. *)
Theorem bulk_create_parents_then_children {V : Type}
    (self : MultiTableChildQueryset.t)
    (objs : list (MultiTableChildQueryset.instance V)) (batch_size : option Z) :
  (MultiTableChildQueryset.batch_size_ok batch_size = false ->
   MultiTableChildQueryset.bulk_create self objs batch_size
   = (Raises AssertionError, self, [])) /\
  (MultiTableChildQueryset.batch_size_ok batch_size = true ->
   objs = [] ->
   MultiTableChildQueryset.bulk_create self objs batch_size
   = (Returns objs, self, [])) /\
  (MultiTableChildQueryset.batch_size_ok batch_size = true ->
   objs <> [] ->
   Forall (fun obj => is_Some (obj !! "id")) objs ->
   exists parents children,
     MultiTableChildQueryset.bulk_create self objs batch_size
     = (Returns children, for_write self,
        [ MultiTableChildQueryset.ParentBulkCreate parents batch_size;
          MultiTableChildQueryset.AtomicEnter (MultiTableChildQueryset.db self);
          MultiTableChildQueryset.BatchedInsert children
            (MultiTableChildQueryset.local_fields
               (MultiTableChildQueryset.model_meta self)) batch_size;
          MultiTableChildQueryset.AtomicExit ]) /\
     Forall2 (parent_of (MultiTableChildQueryset.model_meta self)) objs parents /\
     Forall2 (linked_to_parent (MultiTableChildQueryset.model_meta self))
             objs children).
Proof.
  unfold MultiTableChildQueryset.bulk_create. repeat split.
  - by intros ->.
  - by intros -> ->.
  - intros -> Hne Hids. simpl.
    destruct objs as [|obj objs]; [done|].
    destruct (build_parents_spec (MultiTableChildQueryset.model_meta self)
                (obj :: objs) [] Hids)
      as (parents & children & Hbuild & Hps & Hcs).
    simpl in Hbuild. exists parents, children.
    split; [|done]. simpl. by rewrite Hbuild.
Qed.

Lemma bulk_create_parents_then_children_witness :
  exists parents children,
    MultiTableChildQueryset.bulk_create sample_child_queryset [sample_child] (Some 100)
    = (Returns children, for_write sample_child_queryset,
       [ MultiTableChildQueryset.ParentBulkCreate parents (Some 100);
         MultiTableChildQueryset.AtomicEnter "default";
         MultiTableChildQueryset.BatchedInsert children ["asset_ptr"; "os"] (Some 100);
         MultiTableChildQueryset.AtomicExit ]) /\
    Forall2 (parent_of (MultiTableChildQueryset.model_meta sample_child_queryset))
            [sample_child] parents /\
    Forall2 (linked_to_parent (MultiTableChildQueryset.model_meta sample_child_queryset))
            [sample_child] children.
Proof.
  apply (proj2 (proj2 (bulk_create_parents_then_children sample_child_queryset
                         [sample_child] (Some 100)))).
  - reflexivity.
  - discriminate.
  - repeat constructor. vm_compute. by eexists.
Defined.

(** C6, as stated, fails on an empty [objs] with a [batch_size] of zero:
    the assertion comes first, so nothing is returned. *)
Lemma bulk_create_empty_asserts :
  MultiTableChildQueryset.bulk_create (V := string) sample_child_queryset [] (Some 0)
  = (Raises AssertionError, sample_child_queryset, []).
Proof. reflexivity. Qed.

Example bulk_create_example :
  MultiTableChildQueryset.bulk_create sample_child_queryset [sample_child] None
  = (Returns [<["asset_ptr_id" := "7"]> sample_child],
     for_write sample_child_queryset,
     [ MultiTableChildQueryset.ParentBulkCreate
         [<["id" := "7"]> (<["hostname" := "web-1"]> ∅)] None;
       MultiTableChildQueryset.AtomicEnter "default";
       MultiTableChildQueryset.BatchedInsert
         [<["asset_ptr_id" := "7"]> sample_child] ["asset_ptr"; "os"] None;
       MultiTableChildQueryset.AtomicExit ]).
Proof. vm_compute. reflexivity. Qed.

(** ** IncludesTextChoicesMeta *)

Section Includes.
Context {O : Type}.
Variable is_descriptor : O -> bool.
Variable ignore_names : O -> list string.
Implicit Types (attrs d : IncludesTextChoicesMeta.EnumDict O).
Implicit Types (cls : IncludesTextChoicesMeta.Choices).
Implicit Types (name key : string).

Abbreviation enum_setitem :=
  (IncludesTextChoicesMeta.enum_setitem is_descriptor ignore_names).
Abbreviation include_members :=
  (IncludesTextChoicesMeta.include_members is_descriptor ignore_names).
Abbreviation include_classes :=
  (IncludesTextChoicesMeta.include_classes is_descriptor ignore_names).

Lemma has_key_setitem {V} key key' (v : V) (entries : OrderedDict.t V) :
  OrderedDict.has_key key (OrderedDict.setitem key' v entries) =
  if String.eqb key key' then true else OrderedDict.has_key key entries.
Proof.
  unfold OrderedDict.has_key. rewrite get_setitem.
  by destruct (String.eqb key key').
Qed.









End Includes.




Example includes_example :
  IncludesTextChoicesMeta.class_attrs <$>
    IncludesTextChoicesMeta.__new__ body_is_descriptor body_ignore_names
      "AllTypes" []
      {| IncludesTextChoicesMeta.includes := Some [host_types; database_types];
         IncludesTextChoicesMeta.body := sample_body |}
  = Returns
      {| IncludesTextChoicesMeta.entries :=
           [ ("__module__", IncludesTextChoicesMeta.Body (Plain "assets.const"));
             ("__qualname__", IncludesTextChoicesMeta.Body (Plain "AllTypes"));
             ("category", IncludesTextChoicesMeta.Body (Descriptor "classmethod"));
             ("linux", IncludesTextChoicesMeta.Pair "linux" "Linux");
             ("windows", IncludesTextChoicesMeta.Pair "windows" "Windows");
             ("mysql", IncludesTextChoicesMeta.Pair "mysql" "MySQL") ];
         IncludesTextChoicesMeta._member_names := ["linux"; "windows"; "mysql"];
         IncludesTextChoicesMeta._ignore := [] |}.
Proof. vm_compute. reflexivity. Qed.

(** * Further properties *)

(** ** BitOperationChoice: conversions *)

Section BitChoicesMore.
Implicit Types (cls : BitOperationChoice.t) (bits : list Z).

Lemma db_values_testbit cls names n :
  Z.testbit (lor_all (BitOperationChoice.db_values cls names)) n = true <->
  exists name i, name ∈ names /\
                 BitOperationChoice.NAME_MAP_REVERSE cls !! name = Some i /\
                 Z.testbit i n = true.
Proof.
  rewrite lor_all_testbit, existsb_exists. split.
  - intros (i & Hin & Hbit). revert Hin.
    induction names as [|name names IH]; simpl; [done|].
    destruct (BitOperationChoice.NAME_MAP_REVERSE cls !! name) as [i0|] eqn:E.
    + intros [<-|Hin].
      * exists name, i0. split; [apply list_elem_of_here|done].
      * destruct (IH Hin) as (nm & i' & H1 & H2 & H3).
        exists nm, i'. split; [by apply list_elem_of_further|done].
    + intros Hin. destruct (IH Hin) as (nm & i' & H1 & H2 & H3).
      exists nm, i'. split; [by apply list_elem_of_further|done].
  - intros (name & i & Hin & Hrev & Hbit). exists i. split; [|done].
    induction names as [|name0 names IH]; [by apply elem_of_nil in Hin|].
    simpl. apply elem_of_cons in Hin as [->|Hin].
    + rewrite Hrev. by left.
    + destruct (BitOperationChoice.NAME_MAP_REVERSE cls !! name0);
        [right|]; by apply IH.
Qed.

Lemma lor_selected_mask keys v :
  Forall single_bit keys ->
  lor_all (filter (fun i => Z.land v i = i) keys) = Z.land v (lor_all keys).
Proof.
  intros Hsingle. apply Z.bits_inj'. intros n Hn.
  rewrite Z.land_spec, !lor_all_testbit.
  apply eq_true_iff_eq. rewrite andb_true_iff, !existsb_exists.
  rewrite Forall_forall in Hsingle. split.
  - intros (i & Hin & Hbit).
    apply list_elem_of_In, list_elem_of_filter in Hin as [Hsel Hin].
    destruct (Hsingle i Hin) as (k & Hk & ->).
    rewrite Z.pow2_bits_eqb in Hbit by done.
    apply Z.eqb_eq in Hbit. subst n. split.
    + apply Z.eqb_eq in Hsel. by rewrite land_single_bit in Hsel.
    + exists (2 ^ k). split; [by apply list_elem_of_In|].
      rewrite Z.pow2_bits_eqb by done. apply Z.eqb_refl.
  - intros (Hv & i & Hin & Hbit). apply list_elem_of_In in Hin.
    destruct (Hsingle i Hin) as (k & Hk & ->).
    rewrite Z.pow2_bits_eqb in Hbit by done.
    apply Z.eqb_eq in Hbit. subst n.
    exists (2 ^ k). split.
    + apply list_elem_of_In, list_elem_of_filter. split; [|done].
      apply Z.eqb_eq. by rewrite land_single_bit.
    + rewrite Z.pow2_bits_eqb by done. apply Z.eqb_refl.
Qed.

End BitChoicesMore.

(** X1.  For a well-formed subclass and any integer, converting to
    choices and back keeps exactly the bits [DB_CHOICES] lists: the result
    is the value masked by the union of the listed bits, so bits the
    subclass does not list are dropped. *)
Theorem value_round_trip_masks (cls : BitOperationChoice.t) (value : Z) :
  well_formed cls ->
  exists names,
    BitOperationChoice.value_to_choices cls (BitOperationChoice.VInt value)
    = Returns names /\
    BitOperationChoice.choices_to_value cls (BitOperationChoice.VList names)
    = Z.land value (listed_bits cls).
Proof.
  intros [Hsingle _ Hnamed Hinv].
  destruct (selected_names_db_values cls value
              (BitOperationChoice.DB_CHOICES cls) Hnamed)
    as (names & Hsel & Hdb); [intros i name; apply Hinv|].
  exists names. split; [done|].
  rewrite choices_to_value_lor, Hdb. by apply lor_selected_mask.
Qed.

Lemma value_round_trip_masks_witness :
  exists names,
    BitOperationChoice.value_to_choices sample_actions (BitOperationChoice.VInt 13)
    = Returns names /\
    BitOperationChoice.choices_to_value sample_actions (BitOperationChoice.VList names)
    = 5.
Proof.
  apply (value_round_trip_masks sample_actions 13 sample_actions_well_formed).
Defined.

(** X2.  [choices_to_value] depends only on which known names the list
    holds: order, repetition and names that are not keys of
    [NAME_MAP_REVERSE] make no difference. *)
Theorem choices_to_value_same_names (cls : BitOperationChoice.t)
    (names1 names2 : list string) :
  (forall name, known_name cls name -> name ∈ names1 <-> name ∈ names2) ->
  BitOperationChoice.choices_to_value cls (BitOperationChoice.VList names1)
  = BitOperationChoice.choices_to_value cls (BitOperationChoice.VList names2).
Proof.
  intros Hsame. rewrite !choices_to_value_lor.
  apply Z.bits_inj'. intros n _. apply eq_true_iff_eq.
  rewrite !db_values_testbit.
  split; intros (name & i & Hin & Hrev & Hbit); exists name, i;
    (split; [|done]); apply (Hsame name); try done; by exists i.
Qed.

Lemma choices_to_value_same_names_witness :
  BitOperationChoice.choices_to_value sample_actions
    (BitOperationChoice.VList ["download_file"; "connect"; "bogus"; "connect"])
  = BitOperationChoice.choices_to_value sample_actions
      (BitOperationChoice.VList ["connect"; "download_file"]).
Proof.
  apply choices_to_value_same_names.
  intros name [i Hi].
  destruct (decide (name = "bogus")) as [->|Hne]; [by vm_compute in Hi|].
  rewrite !elem_of_cons, !elem_of_nil. tauto.
Defined.

Lemma selected_names_spec (cls : BitOperationChoice.t) (value : Z) :
  (Exists (fun c => BitOperationChoice.NAME_MAP cls !! c.1 = None)
          (selected_choices cls value) ->
   BitOperationChoice.value_to_choices cls (BitOperationChoice.VInt value)
   = Raises KeyError) /\
  (Forall (fun c => is_Some (BitOperationChoice.NAME_MAP cls !! c.1))
          (selected_choices cls value) ->
   exists names,
     BitOperationChoice.value_to_choices cls (BitOperationChoice.VInt value)
     = Returns names /\
     Forall2 (fun c name => BitOperationChoice.NAME_MAP cls !! c.1 = Some name)
             (selected_choices cls value) names).
Proof.
  unfold selected_choices. simpl.
  induction (BitOperationChoice.DB_CHOICES cls) as [|[i j] choices [IHe IHf]];
    simpl.
  - split; [by intros ?%Exists_nil|]. intros _. exists []. by split; constructor.
  - rewrite filter_cons. simpl.
    destruct (Z.eqb_spec (Z.land value i) i) as [Heq|Hne].
    + rewrite decide_True by done. split.
      * intros [Hnone|Hex]%Exists_cons.
        -- simpl in Hnone. by rewrite Hnone.
        -- destruct (BitOperationChoice.NAME_MAP cls !! i); [|done].
           by rewrite (IHe Hex).
      * intros [[name Hname] Hall]%Forall_cons. simpl in Hname.
        destruct (IHf Hall) as (names & Hsel & Hnames).
        rewrite Hname, Hsel. exists (name :: names). split; [done|].
        by constructor.
    + by rewrite decide_False by done.
Qed.


(** X3.  [value_to_choices] on an integer raises [KeyError] when a key that
    the value selects has no name in [NAME_MAP], and returns otherwise;
    keys the value does not select need no name. *)
Theorem value_to_choices_missing_name (cls : BitOperationChoice.t) (value : Z) :
  (Exists (fun c => BitOperationChoice.NAME_MAP cls !! c.1 = None)
          (selected_choices cls value) ->
   BitOperationChoice.value_to_choices cls (BitOperationChoice.VInt value)
   = Raises KeyError) /\
  (Forall (fun c => is_Some (BitOperationChoice.NAME_MAP cls !! c.1))
          (selected_choices cls value) ->
   exists names,
     BitOperationChoice.value_to_choices cls (BitOperationChoice.VInt value)
     = Returns names /\
     Forall2 (fun c name => BitOperationChoice.NAME_MAP cls !! c.1 = Some name)
             (selected_choices cls value) names).
Proof. apply selected_names_spec. Qed.

Lemma value_to_choices_missing_name_witness :
  BitOperationChoice.value_to_choices
    {| BitOperationChoice.NAME_MAP := <[1 := "connect"]> ∅;
       BitOperationChoice.DB_CHOICES := [(1, "Connect"); (2, "Upload file")];
       BitOperationChoice.NAME_MAP_REVERSE := <["connect" := 1]> ∅ |}
    (BitOperationChoice.VInt 3)
  = Raises KeyError.
Proof.
  apply (proj1 (value_to_choices_missing_name _ 3)).
  apply Exists_cons. right. apply Exists_cons. left. reflexivity.
Defined.

Section BitChoicesNames.
Implicit Types (cls : BitOperationChoice.t).

Lemma wf_all_named cls value :
  well_formed cls ->
  Forall (fun c => is_Some (BitOperationChoice.NAME_MAP cls !! c.1))
         (selected_choices cls value).
Proof.
  intros [_ _ Hnamed _]. apply Forall_forall. intros c Hc.
  apply list_elem_of_filter in Hc as [_ Hc].
  rewrite Forall_forall in Hnamed. apply Hnamed.
  apply list_elem_of_fmap. by exists c.
Qed.

Lemma Forall2_in_r {A B} (R : A -> B -> Prop) l l' y :
  Forall2 R l l' -> y ∈ l' -> exists x, x ∈ l /\ R x y.
Proof.
  induction 1 as [|x y' l l' HR HF IH]; [by intros ?%elem_of_nil|].
  intros [->|Hy]%elem_of_cons.
  - exists x. split; [apply list_elem_of_here|done].
  - destruct (IH Hy) as (x0 & Hx0 & HR0).
    exists x0. split; [by apply list_elem_of_further|done].
Qed.

Lemma Forall2_in_l {A B} (R : A -> B -> Prop) l l' x :
  Forall2 R l l' -> x ∈ l -> exists y, y ∈ l' /\ R x y.
Proof.
  induction 1 as [|x' y l l' HR HF IH]; [by intros ?%elem_of_nil|].
  intros [->|Hx]%elem_of_cons.
  - exists y. split; [apply list_elem_of_here|done].
  - destruct (IH Hx) as (y0 & Hy0 & HR0).
    exists y0. split; [by apply list_elem_of_further|done].
Qed.

(** Distinct keys have distinct names. *)
Lemma wf_name_inj cls i i' name :
  well_formed cls ->
  BitOperationChoice.NAME_MAP cls !! i = Some name ->
  BitOperationChoice.NAME_MAP cls !! i' = Some name -> i = i'.
Proof.
  intros [_ _ _ Hinv] H1 H2. apply Hinv in H1, H2. congruence.
Qed.

Lemma selected_keys_NoDup cls value :
  well_formed cls -> NoDup (selected_choices cls value).*1.
Proof.
  intros [_ Hnd _ _]. unfold selected_choices.
  induction (BitOperationChoice.DB_CHOICES cls) as [|c l IH]; [constructor|].
  simpl in Hnd. apply NoDup_cons in Hnd as [Hnotin Hnd].
  rewrite filter_cons. destruct (decide (Z.land value c.1 = c.1)); [|by apply IH].
  simpl. apply NoDup_cons. split; [|by apply IH].
  intros (c' & Heq & Hc')%list_elem_of_fmap.
  apply list_elem_of_filter in Hc' as [_ Hc'].
  apply Hnotin. apply list_elem_of_fmap. by exists c'.
Qed.

Lemma names_NoDup cls (l : list (Z * string)) names :
  well_formed cls ->
  Forall2 (fun c name => BitOperationChoice.NAME_MAP cls !! c.1 = Some name) l names ->
  NoDup l.*1 -> NoDup names.
Proof.
  intros Hwf. induction 1 as [|c name l names Hc HF IH]; [constructor|].
  simpl. intros [Hnotin Hnd]%NoDup_cons. apply NoDup_cons. split; [|by apply IH].
  intros Hin. destruct (Forall2_in_r _ _ _ _ HF Hin) as (c' & Hc' & Hname').
  apply Hnotin. rewrite (wf_name_inj cls c.1 c'.1 name Hwf Hc Hname').
  apply list_elem_of_fmap. by exists c'.
Qed.

(** A single bit of a well-formed subclass is selected exactly when the
    value has it. *)
Lemma selected_iff cls value c :
  well_formed cls ->
  c ∈ selected_choices cls value <->
  c ∈ BitOperationChoice.DB_CHOICES cls /\
  exists k, 0 <= k /\ c.1 = 2 ^ k /\ Z.testbit value k = true.
Proof.
  intros [Hsingle _ _ _]. unfold selected_choices.
  rewrite list_elem_of_filter. rewrite Forall_forall in Hsingle. split.
  - intros [Hsel Hc]. split; [done|].
    destruct (Hsingle c.1) as (k & Hk & Hck);
      [apply list_elem_of_fmap; by exists c|].
    exists k. split; [done|]. split; [done|].
    rewrite Hck in Hsel. apply Z.eqb_eq in Hsel.
    by rewrite land_single_bit in Hsel.
  - intros [Hc (k & Hk & Hck & Hbit)]. split; [|done].
    rewrite Hck. apply Z.eqb_eq. by rewrite land_single_bit.
Qed.

Lemma names_round_trip_aux cls names :
  well_formed cls ->
  Forall (choice_name cls) names ->
  exists names',
    BitOperationChoice.value_to_choices cls
      (BitOperationChoice.VInt
         (BitOperationChoice.choices_to_value cls (BitOperationChoice.VList names)))
    = Returns names' /\
    (forall name, name ∈ names' <-> name ∈ names) /\
    NoDup names'.
Proof.
  intros Hwf Hnames.
  set (v := BitOperationChoice.choices_to_value cls (BitOperationChoice.VList names)).
  destruct (proj2 (selected_names_spec cls v) (wf_all_named cls v Hwf))
    as (names' & Hret & HF).
  exists names'. split; [done|]. split.
  - intros name. rewrite Forall_forall in Hnames. split.
    + intros Hin. destruct (Forall2_in_r _ _ _ _ HF Hin) as (c & Hc & Hcname).
      apply (selected_iff cls v c Hwf) in Hc as [Hdb (k & Hk & Hck & Hbit)].
      unfold v in Hbit. rewrite choices_to_value_lor in Hbit.
      apply db_values_testbit in Hbit as (nm & i & Hnm & Hrev & Hibit).
      destruct (Hnames nm Hnm) as (i' & Hi' & Hi'name).
      pose proof (proj1 (wf_inverse cls Hwf i' nm) Hi'name) as Hrev'.
      assert (i = i') by congruence. subst i'.
      pose proof (wf_single_bit cls Hwf) as Hsingle.
      rewrite Forall_forall in Hsingle.
      destruct (Hsingle i Hi') as (k' & Hk' & ->).
      rewrite Z.pow2_bits_eqb in Hibit by done.
      apply Z.eqb_eq in Hibit. subst k'.
      rewrite Hck in Hcname. congruence.
    + intros Hin. destruct (Hnames name Hin) as (i & Hi & Hiname).
      pose proof (proj1 (wf_inverse cls Hwf i name) Hiname) as Hrev.
      pose proof (wf_single_bit cls Hwf) as Hsingle.
      rewrite Forall_forall in Hsingle.
      destruct (Hsingle i Hi) as (k & Hk & ->).
      apply list_elem_of_fmap in Hi as (c & Hck & Hc).
      assert (Hsel : c ∈ selected_choices cls v).
      { apply (selected_iff cls v c Hwf). split; [done|].
        exists k. split; [done|]. split; [done|].
        unfold v. rewrite choices_to_value_lor. apply db_values_testbit.
        exists name, (2 ^ k). split; [done|]. split; [done|].
        rewrite Z.pow2_bits_eqb by done. apply Z.eqb_refl. }
      destruct (Forall2_in_l _ _ _ _ HF Hsel) as (name' & Hname' & Hcname').
      rewrite <- Hck in Hcname'. congruence.
  - apply (names_NoDup cls _ _ Hwf HF). by apply selected_keys_NoDup.
Qed.

End BitChoicesNames.

(** X4.  For a well-formed subclass and a list of names of its choices,
    converting the list to a value and the value back to choices gives the
    same names, each once: repetitions are removed and nothing else is
    lost or added. *)
Theorem names_round_trip (cls : BitOperationChoice.t) (names : list string) :
  well_formed cls ->
  Forall (choice_name cls) names ->
  exists names',
    BitOperationChoice.value_to_choices cls
      (BitOperationChoice.VInt
         (BitOperationChoice.choices_to_value cls (BitOperationChoice.VList names)))
    = Returns names' /\
    (forall name, name ∈ names' <-> name ∈ names) /\
    NoDup names'.
Proof. apply names_round_trip_aux. Qed.

Lemma names_round_trip_witness :
  exists names',
    BitOperationChoice.value_to_choices sample_actions
      (BitOperationChoice.VInt
         (BitOperationChoice.choices_to_value sample_actions
            (BitOperationChoice.VList ["download_file"; "connect"; "connect"])))
    = Returns names' /\
    (forall name,
        name ∈ names' <-> name ∈ ["download_file"; "connect"; "connect"]) /\
    NoDup names'.
Proof.
  apply (names_round_trip sample_actions _ sample_actions_well_formed).
  repeat constructor.
  - exists 4. split; [|reflexivity]. apply (bool_decide_unpack _). vm_compute. exact I.
  - exists 1. split; [|reflexivity]. apply (bool_decide_unpack _). vm_compute. exact I.
  - exists 1. split; [|reflexivity]. apply (bool_decide_unpack _). vm_compute. exact I.
Defined.

(** ** BitOperationChoice: display *)

Section BitChoicesDisplay.
Implicit Types (cls : BitOperationChoice.t).

Lemma dict_of_pairs_from (pairs : list (string * string)) :
  forall (d : gmap string string) k,
    k ∉ pairs.*1 ->
    fold_left (fun d kv => <[kv.1 := kv.2]> d) pairs d !! k = d !! k.
Proof.
  induction pairs as [|[k0 v0] pairs IH]; intros d k Hk; simpl; [done|].
  simpl in Hk. apply not_elem_of_cons in Hk as [Hne Hk].
  rewrite IH by done. by apply lookup_insert_ne.
Qed.

Lemma dict_of_pairs_lookup (pairs : list (string * string)) k v :
  NoDup pairs.*1 -> (k, v) ∈ pairs ->
  BitOperationChoice.dict_of_pairs pairs !! k = Some v.
Proof.
  unfold BitOperationChoice.dict_of_pairs. generalize (∅ : gmap string string).
  induction pairs as [|[k0 v0] pairs IH]; intros d Hnd Hin;
    [by apply elem_of_nil in Hin|].
  simpl in *. apply NoDup_cons in Hnd as [Hnotin Hnd].
  apply elem_of_cons in Hin as [[= -> ->]|Hin].
  - rewrite dict_of_pairs_from by done. apply lookup_insert_eq.
  - by apply IH.
Qed.

Lemma choices_spec cls :
  Forall (fun i => is_Some (BitOperationChoice.NAME_MAP cls !! i))
         (BitOperationChoice.DB_CHOICES cls).*1 ->
  exists pairs,
    BitOperationChoice.choices cls = Returns pairs /\
    Forall2 (fun c p => BitOperationChoice.NAME_MAP cls !! c.1 = Some p.1 /\ p.2 = c.2)
            (BitOperationChoice.DB_CHOICES cls) pairs.
Proof.
  unfold BitOperationChoice.choices.
  induction (BitOperationChoice.DB_CHOICES cls) as [|[i j] l IH]; intros Hnamed.
  - exists []. by split; constructor.
  - simpl in Hnamed. apply Forall_cons in Hnamed as [[name Hname] Hnamed].
    destruct (IH Hnamed) as (pairs & Hret & HF).
    exists ((name, j) :: pairs). split.
    + simpl. rewrite Hname. simpl. by rewrite Hret.
    + by constructor.
Qed.

Lemma display_labels_spec cls pairs (sel : list (Z * string)) names :
  well_formed cls ->
  BitOperationChoice.choices cls = Returns pairs ->
  Forall2 (fun c p => BitOperationChoice.NAME_MAP cls !! c.1 = Some p.1 /\ p.2 = c.2)
          (BitOperationChoice.DB_CHOICES cls) pairs ->
  sel ⊆ BitOperationChoice.DB_CHOICES cls ->
  Forall2 (fun c name => BitOperationChoice.NAME_MAP cls !! c.1 = Some name) sel names ->
  BitOperationChoice.display_labels cls names = Returns sel.*2.
Proof.
  intros Hwf Hchoices Hpairs Hsub HF.
  assert (Hnd : NoDup pairs.*1).
  { apply (names_NoDup cls (BitOperationChoice.DB_CHOICES cls)); [done| |apply Hwf].
    clear -Hpairs. induction Hpairs as [|c p l l' [Hc _] _ IH]; by constructor. }
  induction HF as [|c name sel names Hc HF IH]; [done|].
  simpl. rewrite Hchoices. simpl.
  assert (Hin : c ∈ BitOperationChoice.DB_CHOICES cls)
    by (apply Hsub, list_elem_of_here).
  destruct (Forall2_in_l _ _ _ _ Hpairs Hin) as ([n l] & Hp & Hn & Hl).
  simpl in Hn, Hl. assert (n = name) by congruence. subst n l.
  rewrite (dict_of_pairs_lookup pairs name c.2 Hnd Hp).
  rewrite IH; [done|]. intros x Hx. by apply Hsub, list_elem_of_further.
Qed.

Lemma display_aux cls value :
  well_formed cls ->
  BitOperationChoice.value_to_choices_display cls (BitOperationChoice.VInt value)
  = Returns (selected_choices cls value).*2.
Proof.
  intros Hwf. unfold BitOperationChoice.value_to_choices_display.
  destruct (proj2 (selected_names_spec cls value) (wf_all_named cls value Hwf))
    as (names & -> & HF).
  destruct (choices_spec cls (wf_named cls Hwf)) as (pairs & Hchoices & Hpairs).
  simpl. apply (display_labels_spec cls pairs _ names Hwf Hchoices Hpairs); [|done].
  intros c Hc. by apply list_elem_of_filter in Hc as [_ Hc].
Qed.

End BitChoicesDisplay.

(** X5.  For a well-formed subclass, [value_to_choices_display] of an
    integer is the list of the labels [DB_CHOICES] pairs with the bits the
    value has, in the order of [DB_CHOICES]. *)
Theorem value_to_choices_display_labels (cls : BitOperationChoice.t) (value : Z) :
  well_formed cls ->
  BitOperationChoice.value_to_choices_display cls (BitOperationChoice.VInt value)
  = Returns (selected_choices cls value).*2.
Proof. apply display_aux. Qed.

Lemma value_to_choices_display_labels_witness :
  BitOperationChoice.value_to_choices_display sample_actions (BitOperationChoice.VInt 6)
  = Returns ["Upload file"; "Download file"].
Proof.
  apply (value_to_choices_display_labels sample_actions 6 sample_actions_well_formed).
Defined.

(** ** UnionQuerySet: chains, sharing and edge cases *)

Section UnionMore.
Context {QS Args : Type} `{QuerySetAPI QS Args}.
Implicit Types (h : UnionQuerySet.store Args) (self : UnionQuerySet.t QS).

Lemma execute_union_result h self :
  UnionQuerySet.__execute h self
  = union_result (UnionQuerySet.items_at h (UnionQuerySet.before_union_items self))
                 (UnionQuerySet.items_at h (UnionQuerySet.after_union_items self))
                 (UnionQuerySet.queryset_list self).
Proof. apply execute_deferred_result. Qed.

Lemma calls_in_cons p q item (args : Args) calls :
  calls_in p ((q, (item, args)) :: calls) =
  (if same_phase q p then [(item, args)] else []) ++ calls_in p calls.
Proof. unfold calls_in. simpl. by destruct (same_phase q p). Qed.

(** What a chain leaves behind. *)
Lemma record_all_spec calls : forall h self,
  valid h self ->
  let '(h', uqs) := record_all h self calls in
  UnionQuerySet.queryset_list uqs = UnionQuerySet.queryset_list self /\
  UnionQuerySet.after_union_items uqs = UnionQuerySet.after_union_items self /\
  UnionQuerySet.before_union_items uqs = UnionQuerySet.before_union_items self /\
  UnionQuerySet.items_at h' (UnionQuerySet.before_union_items self)
  = UnionQuerySet.items_at h (UnionQuerySet.before_union_items self)
    ++ calls_in UnionQuerySet.BeforeUnion calls /\
  UnionQuerySet.items_at h' (UnionQuerySet.after_union_items self)
  = UnionQuerySet.items_at h (UnionQuerySet.after_union_items self)
    ++ calls_in UnionQuerySet.AfterUnion calls.
Proof.
  induction calls as [|[p [item args]] calls IH]; intros h self Hvalid.
  - simpl. unfold calls_in. simpl. by rewrite !app_nil_r.
  - cbn [record_all].
    pose proof (call_partial_spec h self p item args Hvalid) as Hstep.
    destruct (UnionQuerySet.call_partial h self p item args) as [h1 uqs1].
    destruct Hstep as (Hq & Ha & Hb & Hlist & Hother & Hvalid1).
    specialize (IH h1 uqs1 Hvalid1).
    destruct (record_all h1 uqs1 calls) as [h' uqs].
    destruct IH as (Hq' & Ha' & Hb' & Hbefore & Hafter).
    rewrite Hb in Hbefore. rewrite Ha in Hafter.
    split; [congruence|]. split; [congruence|]. split; [congruence|].
    rewrite !calls_in_cons, Hbefore, Hafter.
    destruct p; simpl in Hlist, Hother.
    + rewrite Hlist, Hother. simpl. by rewrite <- app_assoc.
    + rewrite Hlist, Hother. simpl. by rewrite <- app_assoc.
Qed.

Lemma record_all_execute calls h self :
  valid h self ->
  let '(h', uqs) := record_all h self calls in
  let result :=
    union_result
      (UnionQuerySet.items_at h (UnionQuerySet.before_union_items self)
       ++ calls_in UnionQuerySet.BeforeUnion calls)
      (UnionQuerySet.items_at h (UnionQuerySet.after_union_items self)
       ++ calls_in UnionQuerySet.AfterUnion calls)
      (UnionQuerySet.queryset_list self) in
  UnionQuerySet.__execute h' uqs = result /\
  UnionQuerySet.__execute h' self = result.
Proof.
  intros Hvalid. pose proof (record_all_spec calls h self Hvalid) as Hspec.
  destruct (record_all h self calls) as [h' uqs].
  destruct Hspec as (Hq & Ha & Hb & Hbefore & Hafter).
  simpl. rewrite !execute_union_result, Hq, Ha, Hb, Hbefore, Hafter. done.
Qed.

Lemma init_fresh h (qsl : list QS) :
  let '(h', uqs) := UnionQuerySet.__init__ h qsl in
  h !! UnionQuerySet.after_union_items uqs = None /\
  h !! UnionQuerySet.before_union_items uqs = None.
Proof.
  unfold UnionQuerySet.__init__.
  destruct (UnionQuerySet.alloc h) as [h1 a] eqn:E1.
  destruct (UnionQuerySet.alloc h1) as [h2 b] eqn:E2.
  pose proof (alloc_spec h) as [Ha Hh1]. rewrite E1 in Ha, Hh1. simpl in *.
  pose proof (alloc_spec h1) as [Hb Hh2]. rewrite E2 in Hb, Hh2. simpl in *.
  split; [done|]. subst h1.
  destruct (decide (a = b)) as [->|Hne].
  - by rewrite lookup_insert_eq in Hb.
  - by rewrite lookup_insert_ne in Hb.
Qed.

(** A recorded call changes no list but the one of its phase. *)
Lemma call_partial_frame h self p item (args : Args) l :
  is_Some (h !! l) -> l <> list_of p self ->
  (UnionQuerySet.call_partial h self p item args).1 !! l = h !! l.
Proof.
  intros Hl Hne.
  assert (Hcall : UnionQuerySet.call_partial h self p item args
                  = UnionQuerySet.__clone
                      (UnionQuerySet.append h (list_of p self) (item, args))
                      self (UnionQuerySet.queryset_list self))
    by (by destruct p).
  rewrite Hcall.
  set (h1 := UnionQuerySet.append h (list_of p self) (item, args)).
  pose proof (clone_spec h1 self (UnionQuerySet.queryset_list self)) as Hclone.
  destruct (UnionQuerySet.__clone h1 self (UnionQuerySet.queryset_list self))
    as [h' uqs].
  destruct Hclone as (_ & _ & _ & Hpres). simpl.
  assert (H1 : h1 !! l = h !! l).
  { unfold h1. rewrite append_lookup. by rewrite decide_False. }
  rewrite Hpres; [done|]. by rewrite H1.
Qed.

Lemma independent_objects_aux h (qs1 qs2 : list QS) p item (args : Args) :
  let '(h1, u1) := UnionQuerySet.__init__ h qs1 in
  let '(h2, u2) := UnionQuerySet.__init__ h1 qs2 in
  let '(h3, _) := UnionQuerySet.call_partial h2 u2 p item args in
  UnionQuerySet.items_at h3 (UnionQuerySet.after_union_items u1) = [] /\
  UnionQuerySet.items_at h3 (UnionQuerySet.before_union_items u1) = [] /\
  UnionQuerySet.__execute h3 u1 = union_result [] [] qs1.
Proof.
  pose proof (init_spec h qs1) as H1.
  destruct (UnionQuerySet.__init__ h qs1) as [h1 u1].
  destruct H1 as (Hq1 & (Ha1 & Hb1 & Hne1) & Hea1 & Heb1 & _).
  pose proof (init_spec h1 qs2) as H2. pose proof (init_fresh h1 qs2) as Hf2.
  destruct (UnionQuerySet.__init__ h1 qs2) as [h2 u2].
  destruct H2 as (Hq2 & Hvalid2 & _ & _ & Hpres2). destruct Hf2 as [Hfa Hfb].
  assert (Hl : forall l, is_Some (h1 !! l) ->
                         (UnionQuerySet.call_partial h2 u2 p item args).1 !! l = h1 !! l).
  { intros l Hl. rewrite call_partial_frame.
    - by apply Hpres2.
    - by rewrite Hpres2.
    - intros ->. destruct p; simpl in Hl.
      + rewrite Hfb in Hl. by destruct Hl.
      + rewrite Hfa in Hl. by destruct Hl. }
  destruct (UnionQuerySet.call_partial h2 u2 p item args) as [h3 u3].
  simpl in Hl.
  assert (Ha3 : UnionQuerySet.items_at h3 (UnionQuerySet.after_union_items u1) = []).
  { unfold UnionQuerySet.items_at in *. by rewrite Hl. }
  assert (Hb3 : UnionQuerySet.items_at h3 (UnionQuerySet.before_union_items u1) = []).
  { unfold UnionQuerySet.items_at in *. by rewrite Hl. }
  split; [done|]. split; [done|].
  by rewrite execute_union_result, Ha3, Hb3, Hq1.
Qed.

End UnionMore.

(** X6.  Deferred calls compose in call order within their phase: after a
    chain of calls on a valid [UnionQuerySet], executing the object the
    chain returned applies, to each member, the before-union calls recorded
    so far followed by those of the chain in call order, and to the union
    the after-union calls likewise, wherever in the chain an [order_by]
    stood.  The object the chain started from executes to the same
    result: the lists are shared, so it has seen every call of the chain. *)
Theorem chained_calls_execute {QS Args : Type} `{QuerySetAPI QS Args}
    (h : UnionQuerySet.store Args) (self : UnionQuerySet.t QS)
    (calls : list (UnionQuerySet.phase * (string * Args))) :
  valid h self ->
  let '(h', uqs) := record_all h self calls in
  let result :=
    union_result
      (UnionQuerySet.items_at h (UnionQuerySet.before_union_items self)
       ++ calls_in UnionQuerySet.BeforeUnion calls)
      (UnionQuerySet.items_at h (UnionQuerySet.after_union_items self)
       ++ calls_in UnionQuerySet.AfterUnion calls)
      (UnionQuerySet.queryset_list self) in
  UnionQuerySet.__execute h' uqs = result /\
  UnionQuerySet.__execute h' self = result.
Proof. apply record_all_execute. Qed.

Lemma chained_calls_execute_witness :
  let '(h', uqs) :=
    record_all sample_union.1 sample_union.2
      [ (UnionQuerySet.AfterUnion, ("order_by", ["hostname"]));
        (UnionQuerySet.BeforeUnion, ("filter", ["is_active=True"])) ] in
  UnionQuerySet.__execute h' uqs
  = Returns (Call (Union (Call (Table "assets1") "filter" ["is_active=True"])
                         (Call (Table "assets2") "filter" ["is_active=True"]))
                  "order_by" ["hostname"]) /\
  UnionQuerySet.__execute h' sample_union.2
  = Returns (Call (Union (Call (Table "assets1") "filter" ["is_active=True"])
                         (Call (Table "assets2") "filter" ["is_active=True"]))
                  "order_by" ["hostname"]).
Proof.
  pose proof (chained_calls_execute sample_union.1 sample_union.2
                [ (UnionQuerySet.AfterUnion, ("order_by", ["hostname"]));
                  (UnionQuerySet.BeforeUnion, ("filter", ["is_active=True"])) ]
                (proj1 (proj2 (init_spec (QS := sym_qs) (Args := list string) ∅
                                 [Table "assets1"; Table "assets2"])))) as W.
  vm_compute in W. vm_compute. exact W.
Defined.

(** X7.  Two objects built separately share nothing: after a call recorded
    on the second, both lists of the first are still empty and the first
    executes to the plain union of its members. *)
Theorem separate_objects_independent {QS Args : Type} `{QuerySetAPI QS Args}
    (h : UnionQuerySet.store Args) (qs1 qs2 : list QS)
    (p : UnionQuerySet.phase) (item : string) (args : Args) :
  let '(h1, u1) := UnionQuerySet.__init__ h qs1 in
  let '(h2, u2) := UnionQuerySet.__init__ h1 qs2 in
  let '(h3, _) := UnionQuerySet.call_partial h2 u2 p item args in
  UnionQuerySet.items_at h3 (UnionQuerySet.after_union_items u1) = [] /\
  UnionQuerySet.items_at h3 (UnionQuerySet.before_union_items u1) = [] /\
  UnionQuerySet.__execute h3 u1 = union_result [] [] qs1.
Proof. apply independent_objects_aux. Qed.

(** X8.  An attribute that the first member queryset does not have as a
    bound method (a property, a plain attribute, a missing name) is read
    off the executed union, whether or not it is in [not_return_qs]. *)
Theorem non_method_attribute_executes {QS Args : Type} `{QuerySetAPI QS Args}
    (h : UnionQuerySet.store Args) (self : UnionQuerySet.t QS)
    (origin : QS) (item : string) :
  head (UnionQuerySet.queryset_list self) = Some origin ->
  ismethod origin item = false ->
  UnionQuerySet.own_attribute item = false ->
  UnionQuerySet.__getattribute__ h self item
  = union_qs ← deferred_result h self;
    mret (UnionQuerySet.UnionAttribute union_qs item).
Proof.
  intros Hhead Hmeth Hown. unfold UnionQuerySet.__getattribute__.
  rewrite Hown, execute_deferred_result.
  destruct (Py.member item UnionQuerySet.not_return_qs); [done|].
  destruct (UnionQuerySet.queryset_list self) as [|q qs]; [done|].
  injection Hhead as ->. by rewrite Hmeth.
Qed.

Lemma non_method_attribute_executes_witness :
  UnionQuerySet.__getattribute__ sample_union.1 sample_union.2 "ordered"
  = Returns (UnionQuerySet.UnionAttribute
               (Union (Table "assets1") (Table "assets2")) "ordered").
Proof.
  rewrite (non_method_attribute_executes sample_union.1 sample_union.2
             (Table "assets1") "ordered").
  - vm_compute. reflexivity.
  - reflexivity.
  - vm_compute. reflexivity.
  - vm_compute. reflexivity.
Defined.

(** X9.  A [UnionQuerySet] built from no queryset cannot be used: every
    attribute that is not its own raises, [TypeError] from the empty
    [reduce] for the attributes of [not_return_qs], [IndexError] from
    [queryset_list[0]] for the others, and iteration and indexing raise
    [TypeError]. *)
Theorem empty_union_raises {QS Args : Type} `{QuerySetAPI QS Args}
    (h : UnionQuerySet.store Args) (self : UnionQuerySet.t QS) (item : string) :
  UnionQuerySet.queryset_list self = [] ->
  UnionQuerySet.own_attribute item = false ->
  UnionQuerySet.__getattribute__ h self item
  = Raises (if Py.member item UnionQuerySet.not_return_qs
            then TypeError else IndexError) /\
  UnionQuerySet.__iter__ h self = Raises TypeError /\
  UnionQuerySet.__getitem__ h self = Raises TypeError.
Proof.
  intros Hempty Hown.
  unfold UnionQuerySet.__getattribute__, UnionQuerySet.__iter__,
    UnionQuerySet.__getitem__, UnionQuerySet.__execute.
  rewrite Hown, Hempty. simpl.
  by destruct (Py.member item UnionQuerySet.not_return_qs).
Qed.

Lemma empty_union_raises_witness :
  UnionQuerySet.__getattribute__ empty_union.1 empty_union.2 "filter"
  = Raises IndexError.
Proof.
  apply (proj1 (empty_union_raises empty_union.1 empty_union.2 "filter"
                  eq_refl eq_refl)).
Defined.

(** ** ProtocolsMixin and Asset: further properties *)

Section ProtocolsMore.

Lemma string_app_assoc (a b c : string) : (a +:+ b) +:+ c = a +:+ (b +:+ c).
Proof.
  induction a as [|x a IH]; [done|].
  change (String x ((a +:+ b) +:+ c) = String x (a +:+ (b +:+ c))).
  by rewrite IH.
Qed.

Lemma split_nonempty sep s : Py.split sep s <> [].
Proof. by rewrite split_partition. Qed.

Lemma join_cons sep x l :
  l <> [] -> Py.join sep (x :: l) = x +:+ String sep (Py.join sep l).
Proof. by destruct l. Qed.

Lemma join_split sep s : Py.join sep (Py.split sep s) = s.
Proof.
  induction s as [|a s IH]; [done|].
  cbn [Py.split]. destruct (Ascii.eqb a sep) eqn:E.
  - apply Ascii.eqb_eq in E. subst a.
    rewrite join_cons by apply split_nonempty. by rewrite IH.
  - pose proof (split_nonempty sep s) as Hne.
    destruct (Py.split sep s) as [|x l]; [done|].
    destruct l as [|y l].
    + simpl in IH. subst x. done.
    + rewrite join_cons by done. rewrite join_cons in IH by done.
      change (String a (x +:+ String sep (Py.join sep (y :: l))) = String a s).
      by rewrite IH.
Qed.

Lemma startswith_app sub rest : Py.startswith sub (sub +:+ rest) = true.
Proof.
  induction sub as [|a sub IH]; [done|].
  change (Py.startswith (String a sub) (String a (sub +:+ rest)) = true).
  simpl. by rewrite Ascii.eqb_refl, IH.
Qed.

Lemma substring_app a sub b : Py.substring sub (a +:+ (sub +:+ b)) = true.
Proof.
  induction a as [|x a IH].
  - change (Py.substring sub (sub +:+ b) = true).
    destruct (sub +:+ b) eqn:E; simpl; rewrite <- E;
      by rewrite startswith_app.
  - change (Py.substring sub (String x (a +:+ (sub +:+ b))) = true).
    cbn [Py.substring]. rewrite IH. apply orb_true_r.
Qed.

Lemma before_prefix sep s : exists b, s = Py.before sep s +:+ b.
Proof.
  induction s as [|x s [b IH]]; [by exists EmptyString|].
  simpl. destruct (Ascii.eqb x sep).
  - by exists (String x s).
  - exists b. change (String x s = String x (Py.before sep s +:+ b)). by rewrite <- IH.
Qed.

(** Every item of a split is a piece of the text. *)
Lemma split_item sep s i :
  i ∈ Py.split sep s -> exists a b, s = a +:+ (i +:+ b).
Proof.
  revert i. induction s as [|x s IH]; intros i.
  - simpl. intros ->%list_elem_of_singleton. by exists EmptyString, EmptyString.
  - rewrite split_partition. intros [->|Hin]%elem_of_cons.
    + destruct (before_prefix sep (String x s)) as [b Hb].
      by exists EmptyString, b.
    + simpl in Hin. destruct (Ascii.eqb x sep) eqn:E.
      * destruct (IH i Hin) as (a & b & ->). by exists (String x a), b.
      * destruct (Py.contains sep s) eqn:Hc; [|by apply elem_of_nil in Hin].
        assert (Hin' : i ∈ Py.split sep s).
        { rewrite split_partition, Hc. by apply list_elem_of_further. }
        destruct (IH i Hin') as (a & b & ->). by exists (String x a), b.
Qed.

Lemma entry_name_substring i name port :
  is_entry i name port -> exists b, i = name +:+ b.
Proof.
  intros (_ & _ & _ & _ & [->|[more ->]]); by eexists.
Qed.

(** Whether the dictionary has a name, whatever the ports are. *)
Lemma protocols_loop_keys items : forall d d',
  ProtocolsMixin.protocols_loop items d = Returns d' ->
  forall name,
    OrderedDict.has_key name d' = true <->
    OrderedDict.has_key name d = true \/ Exists (entry_for name) items.
Proof.
  induction items as [|i rest IH]; intros d d'.
  - intros [= <-] name. split; [by left|]. by intros [?|?%Exists_nil].
  - rewrite protocols_loop_step.
    destruct (parse_entry i) as [[name0 port0]|] eqn:Hpe.
    + destruct (Py.int port0) as [n|e]; [|done]. simpl. intros Hloop name.
      rewrite (IH _ _ Hloop name), has_key_setitem.
      rewrite Exists_cons, entry_for_parse.
      destruct (String.eqb name name0) eqn:E.
      * apply String.eqb_eq in E. subst name0. split; [|by left].
        intros _. right. left. by exists port0.
      * split.
        -- intros [?|?]; [by left|by right; right].
        -- intros [?|[[port Hp]|?]]; [by left| |by right].
           rewrite Hpe in Hp. injection Hp as -> _.
           by rewrite String.eqb_refl in E.
    + intros Hloop name. rewrite (IH _ _ Hloop name), Exists_cons, entry_for_parse.
      split; [intros [?|?]; [by left|by right; right]|].
      intros [?|[[port Hp]|?]]; [by left| |by right]. congruence.
Qed.

Lemma has_protocol_entries self name b :
  ProtocolsMixin.has_protocol self name = Returns b ->
  b = true <-> Exists (entry_for name) (ProtocolsMixin.protocols_as_list self).
Proof.
  unfold ProtocolsMixin.has_protocol, ProtocolsMixin.protocols_as_dict.
  destruct (ProtocolsMixin.protocols_loop _ _) as [d|e] eqn:Hloop; [|done].
  simpl. intros [= <-]. rewrite (protocols_loop_keys _ _ _ Hloop name).
  split; [by intros [?|?]|by right].
Qed.

(** A loop that returns met only ports that [int] accepts. *)
Lemma protocols_loop_returns_numeric items : forall d d',
  ProtocolsMixin.protocols_loop items d = Returns d' -> numeric_ports items.
Proof.
  induction items as [|i rest IH]; intros d d'; [constructor|].
  rewrite protocols_loop_step.
  destruct (parse_entry i) as [[name0 port0]|] eqn:Hpe.
  - destruct (Py.int port0) as [n|e] eqn:Hint; [|done]. simpl. intros Hloop.
    constructor; [|by eapply IH].
    intros name port Hentry. apply is_entry_parse in Hentry.
    rewrite Hpe in Hentry. injection Hentry as <- <-. by exists n.
  - intros Hloop. constructor; [|by eapply IH].
    intros name port Hentry. apply is_entry_parse in Hentry. congruence.
Qed.

Lemma setitem_keys_NoDup {V} k (v : V) (d : OrderedDict.t V) :
  NoDup d.*1 -> NoDup (OrderedDict.setitem k v d).*1 /\
                (forall k', k' ∈ (OrderedDict.setitem k v d).*1 <-> k' = k \/ k' ∈ d.*1).
Proof.
  induction d as [|[k0 v0] d IH]; simpl.
  - intros _. split; [apply NoDup_singleton|].
    intros k'. rewrite list_elem_of_singleton, elem_of_nil. tauto.
  - intros [Hnotin Hnd]%NoDup_cons. destruct (IH Hnd) as [IHnd IHin].
    destruct (String.eqb k k0) eqn:E; simpl.
    + apply String.eqb_eq in E. subst k0. split; [by apply NoDup_cons|].
      intros k'. rewrite elem_of_cons. tauto.
    + split.
      * apply NoDup_cons. split; [|done]. rewrite IHin.
        intros [->|?]; [by rewrite String.eqb_refl in E|done].
      * intros k'. rewrite !elem_of_cons, IHin. tauto.
Qed.

Lemma protocols_loop_NoDup items : forall d d',
  ProtocolsMixin.protocols_loop items d = Returns d' -> NoDup d.*1 -> NoDup d'.*1.
Proof.
  induction items as [|i rest IH]; intros d d'; [by intros [= <-]|].
  rewrite protocols_loop_step.
  destruct (parse_entry i) as [[name0 port0]|].
  - destruct (Py.int port0) as [n|e]; [|done]. simpl. intros Hloop Hnd.
    apply (IH _ _ Hloop). by apply setitem_keys_NoDup.
  - apply IH.
Qed.

Lemma get_elem_of {V} k (v : V) (d : OrderedDict.t V) :
  NoDup d.*1 -> (k, v) ∈ d <-> OrderedDict.get k d = Some v.
Proof.
  induction d as [|[k0 v0] d IH]; simpl.
  - intros _. by rewrite elem_of_nil.
  - intros [Hnotin Hnd]%NoDup_cons. rewrite elem_of_cons, (IH Hnd).
    destruct (String.eqb k k0) eqn:E.
    + apply String.eqb_eq in E. subst k0. split.
      * intros [[= ->]|Hget]; [done|].
        exfalso. apply Hnotin. apply IH in Hget; [|done].
        apply list_elem_of_fmap. by exists (k, v).
      * intros [= ->]. by left.
    + split; [|by right]. intros [[= -> ->]|?]; [|done].
      by rewrite String.eqb_refl in E.
Qed.

End ProtocolsMore.

(** X10.  [protocols_as_list] loses nothing of a [protocols] string:
    joining its items with single spaces gives the string back, the empty
    string included. *)
Theorem protocols_as_list_join (self : ProtocolsMixin.t) :
  Py.join " " (ProtocolsMixin.protocols_as_list self) = ProtocolsMixin.protocols self.
Proof.
  unfold ProtocolsMixin.protocols_as_list.
  destruct (ProtocolsMixin.protocols self) as [|a s] eqn:E; [done|].
  cbn [Py.truthy negb]. apply join_split.
Qed.

(** X11.  When [protocols_as_json] returns, it lists each protocol name
    once, and a pair [name], [port] is listed exactly when the last entry
    for [name] carries that port. *)
Theorem protocols_as_json_pairs (self : ProtocolsMixin.t) (json : list (string * Z)) :
  ProtocolsMixin.protocols_as_json self = Returns json ->
  NoDup json.*1 /\
  forall name n,
    (name, n) ∈ json <->
    last_entry (ProtocolsMixin.protocols_as_list self) name n.
Proof.
  unfold ProtocolsMixin.protocols_as_json, ProtocolsMixin.protocols_as_dict.
  destruct (ProtocolsMixin.protocols_loop _ _) as [d|e] eqn:Hloop; [|done].
  simpl. intros [= <-]. unfold OrderedDict.items.
  assert (Hnd : NoDup d.*1).
  { apply (protocols_loop_NoDup _ _ _ Hloop). constructor. }
  split; [done|]. intros name n. rewrite (get_elem_of _ _ _ Hnd).
  destruct (protocols_loop_numeric _ OrderedDict.empty
              (protocols_loop_returns_numeric _ _ _ Hloop)) as (d' & Hd' & Hget).
  rewrite Hloop in Hd'. injection Hd' as <-. rewrite Hget.
  split; [|by left]. by intros [?|[_ ?]].
Qed.

Lemma protocols_as_json_pairs_witness :
  NoDup ([("ssh", 2222); ("rdp", 3389)] : list (string * Z)).*1 /\
  forall name n,
    (name, n) ∈ ([("ssh", 2222); ("rdp", 3389)] : list (string * Z)) <->
    last_entry (ProtocolsMixin.protocols_as_list sample_protocols) name n.
Proof.
  apply (protocols_as_json_pairs sample_protocols). vm_compute. reflexivity.
Defined.

(** X12.  When [is_support_ansible] returns, it is true exactly when the
    asset's [protocols] hold an entry for [ssh] and the type of its
    platform is not [Other]. *)
Theorem is_support_ansible_iff (self : Asset.t) (b : bool) :
  Asset.is_support_ansible self = Returns b ->
  b = true <->
  Exists (entry_for "ssh")
         (ProtocolsMixin.protocols_as_list (Asset.as_protocols_mixin self)) /\
  Asset.platform_type (Asset.platform self) <> "Other".
Proof.
  unfold Asset.is_support_ansible, Asset.has_protocol.
  destruct (ProtocolsMixin.has_protocol _ _) as [ssh|e] eqn:Hssh; [|done].
  pose proof (has_protocol_entries _ _ _ Hssh) as Hiff.
  simpl. destruct ssh.
  - intros [= <-]. unfold Py.member, Asset.platform_base.
    rewrite negb_true_iff, bool_decide_eq_false, list_elem_of_singleton.
    split; [intros ?; split; [by apply Hiff|done]|by intros [_ ?]].
  - intros [= <-]. split; [done|]. intros [Hex _]. by apply Hiff in Hex.
Qed.

Lemma is_support_ansible_iff_witness :
  Exists (entry_for "ssh")
         (ProtocolsMixin.protocols_as_list (Asset.as_protocols_mixin sample_asset)) /\
  Asset.platform_type (Asset.platform sample_asset) <> "Other".
Proof.
  refine (proj1 (is_support_ansible_iff sample_asset true _) eq_refl).
  vm_compute. reflexivity.
Defined.

(** X13.  The queryset filter [has_protocol] never misses an asset whose
    own [has_protocol] holds: a name that has an entry in the asset's
    [protocols] is contained in that text.  (The filter matches any
    containing text, so it may select more.) *)
Theorem queryset_has_protocol_complete (qs : AssetQuerySet.t) (a : Asset.t)
    (name : string) :
  Asset.has_protocol a name = Returns true ->
  In a qs ->
  In a (AssetQuerySet.has_protocol qs name).
Proof.
  intros Hhas Hin. unfold AssetQuerySet.has_protocol.
  apply filter_In. split; [done|].
  apply has_protocol_entries in Hhas. destruct Hhas as [Hex _].
  specialize (Hex eq_refl). apply Exists_exists in Hex as (i & Hi & port & Hentry).
  unfold ProtocolsMixin.protocols_as_list in Hi. simpl in Hi.
  destruct (Py.truthy (Asset.protocols a)); simpl in Hi;
    [|by apply elem_of_nil in Hi].
  destruct (split_item _ _ _ Hi) as (x & y & ->).
  destruct (entry_name_substring _ _ _ Hentry) as (z & ->).
  rewrite string_app_assoc. apply substring_app.
Qed.

Lemma queryset_has_protocol_complete_witness :
  In sample_asset (AssetQuerySet.has_protocol [sample_asset] "ssh").
Proof.
  apply (queryset_has_protocol_complete [sample_asset] sample_asset "ssh").
  - vm_compute. reflexivity.
  - left. reflexivity.
Defined.

Example queryset_has_protocol_matches_more :
  AssetQuerySet.has_protocol [sample_asset] "sh/2" = [sample_asset] /\
  Asset.has_protocol sample_asset "sh/2" = Returns false.
Proof. vm_compute. split; reflexivity. Qed.

(** ** bulk_create: a child without an id *)

Section BulkCreateMore.
Context {V : Type}.

Lemma build_parents_missing_id (opts : MultiTableChildQueryset.Options)
    (objs : list (MultiTableChildQueryset.instance V)) : forall acc,
  Exists (fun obj => obj !! "id" = None) objs ->
  MultiTableChildQueryset.build_parents opts objs acc = Raises AttributeError.
Proof.
  induction objs as [|obj objs IH]; intros acc Hex;
    [by apply Exists_nil in Hex|].
  cbn [MultiTableChildQueryset.build_parents].
  destruct (fill_parent_values_spec obj
              (MultiTableChildQueryset.parent_fields opts) ∅) as (p & -> & _).
  cbn [mbind result_bind]. unfold MultiTableChildQueryset.getattr.
  destruct (obj !! "id") as [id|] eqn:Hid; [|done].
  cbn [mbind result_bind].
  apply Exists_cons in Hex as [Hnone|Hex]; [congruence|].
  by rewrite (IH _ Hex).
Qed.

End BulkCreateMore.

(** X14.  When some child has no [id] (and [batch_size] passes the
    assertion), [bulk_create] raises [AttributeError] after marking the
    queryset for writing and before asking the database for anything:
    no parent and no child is inserted. *)
Theorem bulk_create_missing_id {V : Type} (self : MultiTableChildQueryset.t)
    (objs : list (MultiTableChildQueryset.instance V)) (batch_size : option Z) :
  MultiTableChildQueryset.batch_size_ok batch_size = true ->
  Exists (fun obj => obj !! "id" = None) objs ->
  MultiTableChildQueryset.bulk_create self objs batch_size
  = (Raises AttributeError, for_write self, []).
Proof.
  intros Hok Hex. unfold MultiTableChildQueryset.bulk_create. rewrite Hok.
  destruct objs as [|obj objs]; [by apply Exists_nil in Hex|].
  cbn [negb]. cbv beta iota.
  change (MultiTableChildQueryset.model_meta
            {| MultiTableChildQueryset.model_meta := MultiTableChildQueryset.model_meta self;
               MultiTableChildQueryset.db := MultiTableChildQueryset.db self;
               MultiTableChildQueryset._for_write := true |})
    with (MultiTableChildQueryset.model_meta self).
  by rewrite (build_parents_missing_id _ _ _ Hex).
Qed.

Lemma bulk_create_missing_id_witness :
  MultiTableChildQueryset.bulk_create sample_child_queryset
    [sample_child; delete "id" sample_child] None
  = (Raises AttributeError, for_write sample_child_queryset, []).
Proof.
  apply (bulk_create_missing_id sample_child_queryset).
  - reflexivity.
  - apply Exists_cons. right. apply Exists_cons. left. vm_compute. reflexivity.
Defined.

(** ** es_host_format_validator: what is accepted *)

Section EsHostMore.
Context `{UrlParser}.

Lemma split_length sep s : length (Py.split sep s) = S (Py.count sep s).
Proof.
  induction s as [|a s IH]; [done|]. simpl.
  destruct (Ascii.eqb a sep); simpl; [by rewrite IH|].
  destruct (Py.split sep s); simpl in *; done.
Qed.

Lemma es_host_accepted host r :
  es_host_format_validator host = Returns r ->
  r = host /\
  exists h, urlparse host = Returns h /\
            Py.count ":" (netloc h) = 1%nat /\ accepts h = true.
Proof.
  unfold es_host_format_validator.
  destruct (urlparse host) as [h|e] eqn:Hp; [|done]. simpl.
  destruct (Py.member (scheme h) ["http"; "https"]) eqn:Hs; simpl; [|done].
  destruct (Py.contains ":" (netloc h)) eqn:Hc; simpl; [|done].
  pose proof (split_length ":" (netloc h)) as Hlen.
  destruct (Py.split ":" (netloc h)) as [|_host [|_port [|x l]]] eqn:Hsplit;
    try done.
  simpl in Hlen. assert (Hcount : Py.count ":" (netloc h) = 1%nat) by lia.
  rewrite split_single_colon in Hsplit by (done || lia).
  injection Hsplit as <- <-.
  destruct (Py.truthy (Py.before ":" (netloc h))) eqn:Hh; simpl; [|done].
  destruct (Py.isdigit (Py.after ":" (netloc h))) eqn:Hd; simpl; [|done].
  intros [= <-]. split; [done|]. exists h. split; [done|]. split; [done|].
  unfold accepts, http_scheme, host_part, port_part.
  rewrite Hs, Hc, Hh. exact Hd.
Qed.

End EsHostMore.

(** X15.  Whatever [es_host_format_validator] accepts it returns
    unchanged, and the address has an http or https scheme and a network
    location with exactly one colon, a non-empty host before it and a port
    of digits after it.  So no address with credentials ([user:pw@host:1])
    and no IPv6 literal passes. *)
Theorem es_host_accepted_shape `{UrlParser} (host r : string) :
  es_host_format_validator host = Returns r ->
  r = host /\
  exists h, urlparse host = Returns h /\
            Py.count ":" (netloc h) = 1%nat /\ accepts h = true.
Proof. apply es_host_accepted. Qed.

Lemma es_host_accepted_shape_witness :
  exists h, urlparse (UrlParser := reference_parser) "http://10.0.0.7:9200"
            = Returns h /\
            Py.count ":" (netloc h) = 1%nat /\ accepts h = true.
Proof.
  apply (es_host_accepted_shape (H := reference_parser)
           "http://10.0.0.7:9200" "http://10.0.0.7:9200").
  vm_compute. reflexivity.
Defined.

(** ** validate_meta: keys *)

(** X16.  With an instance, the dictionary [validate_meta] returns has
    exactly the keys of the stored [meta] and of the input, so no stored
    key can be removed through it; the instance's own [meta] is the
    dictionary returned; and a second call with the same input changes
    nothing more. *)
Theorem validate_meta_keys {V : Type} (inst : Storage V) (meta_in : gmap string V) :
  let self := {| ReplayStorageSerializer.instance := Some inst |} in
  let '(m, self') := ReplayStorageSerializer.validate_meta self meta_in in
  dom m = dom meta_in ∪ dom (meta inst) /\
  meta <$> ReplayStorageSerializer.instance self' = Some m /\
  ReplayStorageSerializer.validate_meta self' meta_in = (m, self').
Proof.
  simpl. unfold dict_update, set_meta. simpl.
  split; [apply dom_union_L|]. split; [done|].
  assert (Hidem : meta_in ∪ (meta_in ∪ meta inst) = meta_in ∪ meta inst).
  { by rewrite (assoc_L (∪)), (idemp_L (∪)). }
  unfold ReplayStorageSerializer.validate_meta, dict_update, set_meta. simpl.
  by rewrite Hidem.
Qed.

(** ** AssetQuerySet: filters *)


(** ** NodesRelationMixin.get_all_nodes *)

Section Nodes.
Context {Node : Type} `{Countable Node}.

Lemma reduce_sets_elem (first : list Node) (rest : list (list Node)) x :
  x ∈ NodesRelationMixin.reduce_sets first rest <->
  x ∈ first \/ exists y, y ∈ rest /\ x ∈ y.
Proof.
  unfold NodesRelationMixin.reduce_sets.
  assert (Hgen : forall (acc : gset Node),
             x ∈ fold_left (fun a y => a ∪ list_to_set y) rest acc <->
             x ∈ acc \/ exists y, y ∈ rest /\ x ∈ y).
  { induction rest as [|y rest IH]; intros acc; simpl.
    - split; [by left|]. by intros [?|(y & ?%elem_of_nil & _)].
    - rewrite IH, elem_of_union, elem_of_list_to_set. split.
      + intros [[?|?]|(y' & Hy' & Hx)]; [by left| |].
        * right. exists y. split; [apply list_elem_of_here|done].
        * right. exists y'. split; [by apply list_elem_of_further|done].
      + intros [?|(y' & [->|Hy']%elem_of_cons & Hx)];
          [by left; left|by left; right|].
        right. by exists y'. }
  by rewrite Hgen, elem_of_list_to_set.
Qed.

Lemma get_all_nodes_flat_aux (nodes_all org_root_nodes : list Node)
    (get_ancestors : Node -> list Node) :
  match NodesRelationMixin.get_nodes nodes_all org_root_nodes with
  | [] =>
      NodesRelationMixin.get_all_nodes nodes_all org_root_nodes get_ancestors true
      = Raises TypeError
  | _ :: _ =>
      exists l,
        NodesRelationMixin.get_all_nodes nodes_all org_root_nodes get_ancestors true
        = Returns (NodesRelationMixin.Flat l) /\
        forall x, x ∈ l <->
                  exists n, n ∈ NodesRelationMixin.get_nodes nodes_all org_root_nodes /\
                            x ∈ get_ancestors n
  end.
Proof.
  unfold NodesRelationMixin.get_all_nodes.
  destruct (NodesRelationMixin.get_nodes nodes_all org_root_nodes)
    as [|n rest]; [done|].
  rewrite fmap_cons. destruct rest as [|n' ns].
  - exists (get_ancestors n). split; [done|]. intros x. split.
    + intros Hx. exists n. split; [apply list_elem_of_here|done].
    + by intros (n0 & ->%list_elem_of_singleton & Hx).
  - rewrite fmap_cons. eexists. split; [reflexivity|]. intros x.
    rewrite elem_of_elements, reduce_sets_elem. split.
    + intros [Hx|(y & Hy & Hx)].
      * exists n. split; [apply list_elem_of_here|done].
      * rewrite <- fmap_cons in Hy.
        apply list_elem_of_fmap in Hy as (n0 & -> & Hn0).
        exists n0. split; [by apply list_elem_of_further|done].
    + intros (n0 & [->|Hn0]%elem_of_cons & Hx); [by left|].
      right. exists (get_ancestors n0). split; [|done].
      rewrite <- fmap_cons. apply list_elem_of_fmap. by exists n0.
Qed.

End Nodes.

(** X18.  [get_all_nodes(flat=True)] lists exactly the ancestors of the
    nodes [get_nodes] gives: those of the asset, or the organisation's root
    when the asset has none.  When [get_nodes] gives no node at all, the
    [reduce] over the empty list raises [TypeError]. *)
Theorem get_all_nodes_flat {Node : Type} `{Countable Node}
    (nodes_all org_root_nodes : list Node) (get_ancestors : Node -> list Node) :
  match NodesRelationMixin.get_nodes nodes_all org_root_nodes with
  | [] =>
      NodesRelationMixin.get_all_nodes nodes_all org_root_nodes get_ancestors true
      = Raises TypeError
  | _ :: _ =>
      exists l,
        NodesRelationMixin.get_all_nodes nodes_all org_root_nodes get_ancestors true
        = Returns (NodesRelationMixin.Flat l) /\
        forall x, x ∈ l <->
                  exists n, n ∈ NodesRelationMixin.get_nodes nodes_all org_root_nodes /\
                            x ∈ get_ancestors n
  end.
Proof. apply get_all_nodes_flat_aux. Qed.

Example get_all_nodes_example :
  NodesRelationMixin.get_all_nodes (Node := string) [] ["/Default"]
    (fun n => [n]) true
  = Returns (NodesRelationMixin.Flat ["/Default"]).
Proof. reflexivity. Qed.

(** ** IncludesTextChoicesMeta: what a created class guarantees *)

Section IncludesMore.
Context {O : Type}.
Variable is_descriptor : O -> bool.
Variable ignore_names : O -> list string.
Implicit Types (d : IncludesTextChoicesMeta.EnumDict O).

Lemma enum_setitem_pair_member d name value label d' :
  ordinary_name name ->
  name ∉ IncludesTextChoicesMeta._ignore d ->
  IncludesTextChoicesMeta.enum_setitem is_descriptor ignore_names d name
    (IncludesTextChoicesMeta.Pair value label) = Returns d' ->
  (name ∉ IncludesTextChoicesMeta._member_names d) /\
  IncludesTextChoicesMeta._member_names d'
  = IncludesTextChoicesMeta._member_names d ++ [name] /\
  IncludesTextChoicesMeta._ignore d' = IncludesTextChoicesMeta._ignore d.
Proof.
  intros [Hs Hd] Hi. unfold IncludesTextChoicesMeta.enum_setitem.
  rewrite Hs, Hd. unfold Py.member.
  destruct (bool_decide (name ∈ IncludesTextChoicesMeta._member_names d)) eqn:Hm;
    [done|].
  apply bool_decide_eq_false in Hm.
  rewrite (bool_decide_eq_false_2 _ Hi). simpl.
  destruct (OrderedDict.has_key name (IncludesTextChoicesMeta.entries d)); [done|].
  by intros [= <-].
Qed.

Lemma include_members_distinct cls names : forall d d',
  Forall ordinary_name names ->
  Forall (fun n => n ∉ IncludesTextChoicesMeta._ignore d) names ->
  IncludesTextChoicesMeta.include_members is_descriptor ignore_names cls names d
  = Returns d' ->
  IncludesTextChoicesMeta._member_names d'
  = IncludesTextChoicesMeta._member_names d ++ names /\
  IncludesTextChoicesMeta._ignore d' = IncludesTextChoicesMeta._ignore d /\
  NoDup names /\
  (forall n, n ∈ names -> n ∉ IncludesTextChoicesMeta._member_names d).
Proof.
  induction names as [|name names IH]; intros d d' Hord Hign;
    cbn [IncludesTextChoicesMeta.include_members].
  - intros [= <-]. rewrite app_nil_r. repeat split; [constructor|].
    by intros n ?%elem_of_nil.
  - apply Forall_cons in Hord as [Ho Hord]. apply Forall_cons in Hign as [Hi Hign].
    destruct (IncludesTextChoicesMeta._member_map_ cls !! name) as [member|]; [|done].
    destruct (IncludesTextChoicesMeta._value2label_map_ cls !! _) as [label|]; [|done].
    destruct (IncludesTextChoicesMeta.enum_setitem _ _ d name _) as [d1|e] eqn:Hset;
      [|done].
    cbn [mbind result_bind]. intros Hrest.
    destruct (enum_setitem_pair_member _ _ _ _ _ Ho Hi Hset) as (Hnotin & Hm1 & Hi1).
    destruct (IH d1 d' Hord) as (Hm & Hig & Hnd & Hdisj); [by rewrite Hi1|done|].
    split; [by rewrite Hm, Hm1, <- app_assoc|]. split; [congruence|]. split.
    + apply NoDup_cons. split; [|done]. intros Hin.
      apply (Hdisj name Hin). rewrite Hm1. apply elem_of_app. right.
      apply list_elem_of_here.
    + intros n [->|Hn]%elem_of_cons; [done|].
      intros Hin. apply (Hdisj n Hn). rewrite Hm1. apply elem_of_app. by left.
Qed.

Lemma include_classes_distinct (includes : list IncludesTextChoicesMeta.Choices) :
  forall d d',
    Forall ordinary_name (included_names includes) ->
    Forall (fun n => n ∉ IncludesTextChoicesMeta._ignore d) (included_names includes) ->
    IncludesTextChoicesMeta.include_classes is_descriptor ignore_names includes d
    = Returns d' ->
    IncludesTextChoicesMeta._member_names d'
    = IncludesTextChoicesMeta._member_names d ++ included_names includes /\
    NoDup (included_names includes) /\
    (forall n, n ∈ included_names includes ->
               n ∉ IncludesTextChoicesMeta._member_names d).
Proof.
  induction includes as [|cls includes IH]; intros d d' Hord Hign;
    cbn [IncludesTextChoicesMeta.include_classes].
  - intros [= <-]. unfold included_names. simpl. rewrite app_nil_r.
    repeat split; [constructor|]. by intros n ?%elem_of_nil.
  - unfold included_names in *. rewrite fmap_cons in *. simpl in Hord, Hign.
    apply Forall_app in Hord as [Ho1 Ho2]. apply Forall_app in Hign as [Hi1 Hi2].
    destruct (IncludesTextChoicesMeta.include_members _ _ cls _ d) as [d1|e] eqn:Hmem;
      [|done].
    cbn [mbind result_bind]. intros Hrest.
    destruct (include_members_distinct _ _ _ _ Ho1 Hi1 Hmem)
      as (Hm1 & Hig1 & Hnd1 & Hdisj1).
    destruct (IH d1 d' Ho2) as (Hm & Hnd & Hdisj); [by rewrite Hig1|done|].
    simpl. split; [by rewrite Hm, Hm1, <- app_assoc|]. split.
    + apply NoDup_app. split; [done|]. split; [|done].
      intros n Hn1 Hn2. apply (Hdisj n Hn2). rewrite Hm1. apply elem_of_app. by right.
    + intros n [Hn|Hn]%elem_of_app; [by apply Hdisj1|].
      intros Hin. apply (Hdisj n Hn). rewrite Hm1. apply elem_of_app. by left.
Qed.

Lemma created_class_names_aux classname bases
    (cd : IncludesTextChoicesMeta.classdict (O := O)) includes attrs0 c :
  IncludesTextChoicesMeta.includes cd = Some includes ->
  IncludesTextChoicesMeta.copy_body is_descriptor ignore_names
    (IncludesTextChoicesMeta.body cd) empty_enum_dict = Returns attrs0 ->
  Forall ordinary_name (included_names includes) ->
  Forall (fun n => n ∉ IncludesTextChoicesMeta._ignore attrs0)
         (included_names includes) ->
  IncludesTextChoicesMeta.__new__ is_descriptor ignore_names classname bases cd
  = Returns c ->
  NoDup (included_names includes) /\
  (forall n, n ∈ included_names includes ->
             n ∉ IncludesTextChoicesMeta._member_names attrs0) /\
  IncludesTextChoicesMeta._member_names (IncludesTextChoicesMeta.class_attrs c)
  = IncludesTextChoicesMeta._member_names attrs0 ++ included_names includes.
Proof.
  intros Hinc Hbody Hord Hign. unfold IncludesTextChoicesMeta.__new__.
  rewrite Hinc. destruct includes as [|cls includes]; [done|].
  change (IncludesTextChoicesMeta.copy_body is_descriptor ignore_names
            (IncludesTextChoicesMeta.body cd)
            {| IncludesTextChoicesMeta.entries := OrderedDict.empty;
               IncludesTextChoicesMeta._member_names := [];
               IncludesTextChoicesMeta._ignore := [] |})
    with (IncludesTextChoicesMeta.copy_body is_descriptor ignore_names
            (IncludesTextChoicesMeta.body cd) empty_enum_dict).
  rewrite Hbody. cbn [mbind result_bind].
  destruct (IncludesTextChoicesMeta.include_classes _ _ _ attrs0) as [d'|e] eqn:Hcls;
    [|done].
  cbn [mbind result_bind mret result_ret]. intros [= <-]. simpl.
  destruct (include_classes_distinct _ _ _ Hord Hign Hcls) as (Hm & Hnd & Hdisj).
  done.
Qed.

End IncludesMore.

(** X19.  When the class is created (the included member names being
    ordinary names outside the body's [_ignore_]), no member name was
    included twice and none was a member of the class body already, and
    the members of the class are those of the body followed by those of
    the included classes, in the order of [includes]. *)
Theorem created_class_distinct_names {O : Type}
    (is_descriptor : O -> bool) (ignore_names : O -> list string)
    (classname : string) (bases : list string)
    (cd : IncludesTextChoicesMeta.classdict (O := O))
    (includes : list IncludesTextChoicesMeta.Choices)
    (attrs0 : IncludesTextChoicesMeta.EnumDict O)
    (c : IncludesTextChoicesMeta.class (O := O)) :
  IncludesTextChoicesMeta.includes cd = Some includes ->
  IncludesTextChoicesMeta.copy_body is_descriptor ignore_names
    (IncludesTextChoicesMeta.body cd) empty_enum_dict = Returns attrs0 ->
  Forall ordinary_name (included_names includes) ->
  Forall (fun n => n ∉ IncludesTextChoicesMeta._ignore attrs0)
         (included_names includes) ->
  IncludesTextChoicesMeta.__new__ is_descriptor ignore_names classname bases cd
  = Returns c ->
  NoDup (included_names includes) /\
  (forall n, n ∈ included_names includes ->
             n ∉ IncludesTextChoicesMeta._member_names attrs0) /\
  IncludesTextChoicesMeta._member_names (IncludesTextChoicesMeta.class_attrs c)
  = IncludesTextChoicesMeta._member_names attrs0 ++ included_names includes.
Proof. apply created_class_names_aux. Qed.

Lemma created_class_distinct_names_witness :
  NoDup (included_names [host_types; database_types]) /\
  (forall n, n ∈ included_names [host_types; database_types] ->
             n ∉ IncludesTextChoicesMeta._member_names sample_body_attrs) /\
  ["linux"; "windows"; "mysql"]
  = IncludesTextChoicesMeta._member_names sample_body_attrs
    ++ included_names [host_types; database_types].
Proof.
  apply (created_class_distinct_names body_is_descriptor body_ignore_names
           "AllTypes" []
           {| IncludesTextChoicesMeta.includes := Some [host_types; database_types];
              IncludesTextChoicesMeta.body := sample_body |}
           [host_types; database_types] sample_body_attrs
           {| IncludesTextChoicesMeta.class_name := "AllTypes";
              IncludesTextChoicesMeta.class_bases := ["TextChoices"];
              IncludesTextChoicesMeta.class_attrs :=
                {| IncludesTextChoicesMeta.entries :=
                     [ ("__module__", IncludesTextChoicesMeta.Body (Plain "assets.const"));
                       ("__qualname__", IncludesTextChoicesMeta.Body (Plain "AllTypes"));
                       ("category", IncludesTextChoicesMeta.Body (Descriptor "classmethod"));
                       ("linux", IncludesTextChoicesMeta.Pair "linux" "Linux");
                       ("windows", IncludesTextChoicesMeta.Pair "windows" "Windows");
                       ("mysql", IncludesTextChoicesMeta.Pair "mysql" "MySQL") ];
                   IncludesTextChoicesMeta._member_names := ["linux"; "windows"; "mysql"];
                   IncludesTextChoicesMeta._ignore := [] |} |}).
  - reflexivity.
  - vm_compute. reflexivity.
  - repeat constructor.
  - repeat constructor; apply not_elem_of_nil.
  - vm_compute. reflexivity.
Defined.

